(** * A shallow embedding of the go-shadow router (router.go)

  The router registers named routes per HTTP method, merges them into
  alternation regexes (Compile) and looks a request path up in these
  (Dispatch).  The Go standard packages the code leans on (strings,
  strconv, regexp) are embedded first, then router.go itself, function
  by function, then the properties. *)

From Stdlib Require Import ZArith Ascii String List Bool Lia DecimalString.
From stdpp Require Import base option list strings gmap fin_maps.

Set Warnings "-register-all".

Local Open Scope char_scope.
Local Open Scope string_scope.
Local Open Scope list_scope.

(** Go strings are byte sequences; they are embedded as [string] at the
  level of router.go and as [list ascii] inside the library functions. *)
Abbreviation chars := list_ascii_of_string.
Abbreviation str := string_of_list_ascii.

(* ================================================================== *)
(** ** Package strings *)

Module Strings.

Fixpoint HasPrefix (s p : list ascii) : bool :=
  match p, s with
  | [], _ => true
  | _ :: _, [] => false
  | c :: p', d :: s' => if Ascii.eqb c d then HasPrefix s' p' else false
  end.

(** Replace with an empty [old]: [new] goes in front of every byte and
    at the end, at most [n] times when [n] is not negative. *)
Fixpoint replace_empty (new : list ascii) (n : Z) (s : list ascii) : list ascii :=
  if (n =? 0)%Z then s
  else match s with
       | [] => new
       | c :: s' => new ++ c :: replace_empty new (n - 1) s'
       end.

(** Replace with a non-empty [old]: left to right, non-overlapping;
    [skip] counts the bytes of a replaced occurrence still to drop. *)
Fixpoint replace_from (old new : list ascii) (n : Z) (skip : nat)
         (s : list ascii) : list ascii :=
  match s with
  | [] => []
  | c :: s' =>
      match skip with
      | S k => replace_from old new n k s'
      | O =>
          if (n =? 0)%Z then s
          else if HasPrefix s old
               then new ++ replace_from old new (n - 1) (length old - 1) s'
               else c :: replace_from old new n 0 s'
      end
  end.

(** strings.Replace(s, old, new, n); n < 0 lifts the limit. *)
Definition Replace (s old new : string) (n : Z) : string :=
  match chars old with
  | [] => str (replace_empty (chars new) n (chars s))
  | o => str (replace_from o (chars new) n 0 (chars s))
  end.

Definition in_cutset (cutset : list ascii) (c : ascii) : bool :=
  existsb (Ascii.eqb c) cutset.

Fixpoint trim_left (cutset s : list ascii) : list ascii :=
  match s with
  | [] => []
  | c :: s' => if in_cutset cutset c then trim_left cutset s' else s
  end.

Definition TrimLeft (s cutset : string) : string :=
  str (trim_left (chars cutset) (chars s)).

Definition TrimRight (s cutset : string) : string :=
  str (rev (trim_left (chars cutset) (rev (chars s)))).

Definition upper (c : ascii) : ascii :=
  let n := nat_of_ascii c in
  if (97 <=? n)%nat && (n <=? 122)%nat then ascii_of_nat (n - 32) else c.

Definition ToUpper (s : string) : string := str (map upper (chars s)).

End Strings.

(* ================================================================== *)
(** ** Package strconv *)

Module Strconv.

Definition digit (c : ascii) : option Z :=
  let n := nat_of_ascii c in
  if (48 <=? n)%nat && (n <=? 57)%nat then Some (Z.of_nat (n - 48)) else None.

Fixpoint digits (acc : Z) (s : list ascii) : option Z :=
  match s with
  | [] => Some acc
  | c :: s' =>
      match digit c with
      | Some d => digits (10 * acc + d)%Z s'
      | None => None
      end
  end.

Definition int_min : Z := (- 2 ^ 63)%Z.
Definition int_max : Z := (2 ^ 63 - 1)%Z.

Definition in_range (z : Z) : option Z :=
  if (int_min <=? z)%Z && (z <=? int_max)%Z then Some z else None.

(** strconv.Atoi: an optional sign, then one or more decimal digits,
    the value within the 64-bit int; anything else is an error. *)
Definition Atoi (s : string) : option Z :=
  match chars s with
  | [] => None
  | "-"%char :: (_ :: _) as ds => z ← digits 0 ds; in_range (- z)
  | "+"%char :: (_ :: _) as ds => z ← digits 0 ds; in_range z
  | ds => z ← digits 0 ds; in_range z
  end.

Definition Itoa (v : Z) : string := NilZero.string_of_int (Z.to_int v).

End Strconv.

(* ================================================================== *)
(** ** Package regexp

  Go's regexp finds the match a backtracking search would find first
  (leftmost, and among the leftmost the one preferred by the order of
  alternatives and the greediness of repetitions).  The embedding is
  such a backtracking matcher in continuation-passing style, over the
  fragment of the syntax that router.go can produce: literals, [.],
  classes, [^] and [$], groups (capturing, named, non-capturing),
  alternation and the repetitions [*], [+], [?], [{n}], [{n,}],
  [{n,m}], greedy or lazy.  A pattern outside the fragment is refused
  by the parser like a malformed one. *)

Module Regexp.

Local Open Scope char_scope.

Inductive re : Type :=
| Empty
| Lit (c : ascii)
| AnyNotNL
| Class (neg : bool) (rs : list (ascii * ascii))
| Bol
| Eol
| Cat (a b : re)
| Alt (a b : re)
| Rep (greedy : bool) (min : nat) (max : option nat) (a : re)
| Cap (idx : nat) (a : re).

(** Capture state: the newest binding of a group comes first. *)
Definition caps : Type := list (nat * (nat * nat)).

Fixpoint cap_lookup (i : nat) (cs : caps) : option (nat * nat) :=
  match cs with
  | [] => None
  | (j, span) :: cs' => if (i =? j)%nat then Some span else cap_lookup i cs'
  end.

Definition in_range (c : ascii) (r : ascii * ascii) : bool :=
  (nat_of_ascii (fst r) <=? nat_of_ascii c)%nat
  && (nat_of_ascii c <=? nat_of_ascii (snd r))%nat.

Definition in_class (neg : bool) (rs : list (ascii * ascii)) (c : ascii) : bool :=
  xorb neg (existsb (in_range c) rs).

Definition kont : Type := nat -> list ascii -> caps -> option caps.

Definition step1 (p : ascii -> bool) (pos : nat) (s : list ascii)
           (cs : caps) (k : kont) : option caps :=
  match s with
  | c :: s' => if p c then k (S pos) s' cs else None
  | [] => None
  end.

Definition below (cnt : nat) (max : option nat) : bool :=
  match max with Some m => (cnt <? m)%nat | None => true end.

(** The iterations of a repetition of [a], [runa] being the matcher
    of [a]: [cnt] iterations are done.  A greedy repetition tries one
    more iteration before it stops, a lazy one stops first.  An
    iteration beyond the minimum has to consume input. *)
Definition rep_loop (runa : nat -> list ascii -> caps -> kont -> option caps)
           (g : bool) (mn : nat) (mx : option nat) (k : kont)
  : nat -> nat -> nat -> list ascii -> caps -> option caps :=
  fix loop (fuel cnt pos : nat) (s : list ascii) (cs : caps) {struct fuel} :=
    match fuel with
    | O => if (mn <=? cnt)%nat then k pos s cs else None
    | S fuel' =>
        let more (_ : unit) :=
          if below cnt mx
          then runa pos s cs
                 (fun p1 s1 c1 =>
                    if (cnt <? mn)%nat || (pos <? p1)%nat
                    then loop fuel' (S cnt) p1 s1 c1 else None)
          else None in
        let stop (_ : unit) :=
          if (mn <=? cnt)%nat then k pos s cs else None in
        if g
        then match more tt with Some c => Some c | None => stop tt end
        else match stop tt with Some c => Some c | None => more tt end
    end.

(** [run r pos s cs k]: match [r] at offset [pos], where [s] is the
    rest of the text, then go on with [k]. *)
Fixpoint run (r : re) (pos : nat) (s : list ascii) (cs : caps) (k : kont)
  {struct r} : option caps :=
  match r with
  | Empty => k pos s cs
  | Lit c => step1 (Ascii.eqb c) pos s cs k
  | AnyNotNL => step1 (fun d => negb (Ascii.eqb d "010")) pos s cs k
  | Class neg rs => step1 (in_class neg rs) pos s cs k
  | Bol => if (pos =? 0)%nat then k pos s cs else None
  | Eol => match s with [] => k pos s cs | _ :: _ => None end
  | Cat a b => run a pos s cs (fun p1 s1 c1 => run b p1 s1 c1 k)
  | Alt a b =>
      match run a pos s cs k with
      | Some c => Some c
      | None => run b pos s cs k
      end
  | Cap i a => run a pos s cs (fun p1 s1 c1 => k p1 s1 ((i, (pos, p1)) :: c1))
  | Rep g mn mx a =>
      rep_loop (run a) g mn mx k (mn + length s + 1) 0 pos s cs
  end.

(** Leftmost match: the first offset from [pos] on at which [r]
    matches; group 0 is the whole match. *)
Fixpoint search (r : re) (pos : nat) (s : list ascii) : option caps :=
  match run r pos s [] (fun p _ c => Some ((0%nat, (pos, p)) :: c)) with
  | Some c => Some c
  | None =>
      match s with
      | [] => None
      | _ :: s' => search r (S pos) s'
      end
  end.

Definition slice (a b : nat) (s : list ascii) : list ascii :=
  take (b - a) (drop a s).

(** The text of group [i], empty when the group took no part. *)
Definition group_text (src : list ascii) (cs : caps) (i : nat) : list ascii :=
  match cap_lookup i cs with
  | Some (a, b) => slice a b src
  | None => []
  end.

(** *** Parser *)

Definition is_digit (c : ascii) : bool :=
  let n := nat_of_ascii c in (48 <=? n)%nat && (n <=? 57)%nat.

Definition is_alnum (c : ascii) : bool :=
  let n := nat_of_ascii c in
  is_digit c || ((65 <=? n)%nat && (n <=? 90)%nat)
  || ((97 <=? n)%nat && (n <=? 122)%nat).

Definition is_word (c : ascii) : bool := is_alnum c || Ascii.eqb c "_".

Definition perl_d : list (ascii * ascii) := [("0", "9")].
Definition perl_w : list (ascii * ascii) :=
  [("0", "9"); ("A", "Z"); ("_", "_"); ("a", "z")].
Definition perl_s : list (ascii * ascii) :=
  [("009", "010"); ("012", "013"); (" ", " ")].

(** The byte an escape [\c] stands for. *)
Definition escaped_char (c : ascii) : option ascii :=
  if (nat_of_ascii c <? 128)%nat && negb (is_alnum c) then Some c
  else if Ascii.eqb c "n" then Some "010"
  else if Ascii.eqb c "t" then Some "009"
  else if Ascii.eqb c "r" then Some "013"
  else if Ascii.eqb c "f" then Some "012"
  else if Ascii.eqb c "v" then Some "011"
  else if Ascii.eqb c "a" then Some "007"
  else None.

Definition perl_class (c : ascii) : option (list (ascii * ascii)) :=
  if Ascii.eqb c "d" then Some perl_d
  else if Ascii.eqb c "w" then Some perl_w
  else if Ascii.eqb c "s" then Some perl_s
  else None.

(** One character of a class, escaped or not. *)
Definition class_char (s : list ascii) : option (ascii * list ascii) :=
  match s with
  | [] => None
  | "\" :: c :: s' => d ← escaped_char c; Some (d, s')
  | "\" :: [] => None
  | c :: s' => Some (c, s')
  end.

(** The items of a class up to its closing bracket. *)
Fixpoint class_items (fuel : nat) (first : bool) (s : list ascii)
         (acc : list (ascii * ascii))
  : option (list (ascii * ascii) * list ascii) :=
  match fuel with
  | O => None
  | S f =>
      match s with
      | [] => None
      | "]" :: s' =>
          if first then class_range f "]" s' acc else Some (acc, s')
      | "[" :: ":" :: _ => None
      | "\" :: c :: s' =>
          match perl_class c with
          | Some rs => class_items f false s' (acc ++ rs)
          | None => d ← escaped_char c; class_range f d s' acc
          end
      | _ => '(lo, s') ← class_char s; class_range f lo s' acc
      end
  end
with class_range (fuel : nat) (lo : ascii) (s : list ascii)
                 (acc : list (ascii * ascii))
  : option (list (ascii * ascii) * list ascii) :=
  match fuel with
  | O => None
  | S f =>
      match s with
      | "-" :: "]" :: _ => class_items f false s (acc ++ [(lo, lo)])
      | "-" :: s' =>
          '(hi, s'') ← class_char s';
          if (nat_of_ascii lo <=? nat_of_ascii hi)%nat
          then class_items f false s'' (acc ++ [(lo, hi)])
          else None
      | _ => class_items f false s (acc ++ [(lo, lo)])
      end
  end.

Definition parse_class (s : list ascii) : option (re * list ascii) :=
  let fuel := (2 * length s + 2)%nat in
  match s with
  | "^" :: s' =>
      '(rs, rest) ← class_items fuel true s' []; Some (Class true rs, rest)
  | _ =>
      '(rs, rest) ← class_items fuel true s []; Some (Class false rs, rest)
  end.

Fixpoint number (acc : nat) (seen : bool) (s : list ascii)
  : option (nat * list ascii) :=
  match s with
  | c :: s' =>
      if is_digit c
      then number (10 * acc + (nat_of_ascii c - 48)) true s'
      else if seen then Some (acc, s) else None
  | [] => if seen then Some (acc, s) else None
  end.

(** A counted repetition [{n}], [{n,}] or [{n,m}] at the head of [s];
    [None] when the braces are not of that form. *)
Definition braces (s : list ascii) : option (nat * option nat * list ascii) :=
  match s with
  | "{" :: s1 =>
      '(n, s2) ← number 0 false s1;
      match s2 with
      | "}" :: s3 => Some (n, Some n, s3)
      | "," :: "}" :: s3 => Some (n, None, s3)
      | "," :: s3 =>
          '(m, s4) ← number 0 false s3;
          match s4 with
          | "}" :: s5 => Some (n, Some m, s5)
          | _ => None
          end
      | _ => None
      end
  | _ => None
  end.

Definition quantifier (s : list ascii) : option (nat * option nat * list ascii) :=
  match s with
  | "*" :: s' => Some (0, None, s')%nat
  | "+" :: s' => Some (1, None, s')%nat
  | "?" :: s' => Some (0, Some 1, s')%nat
  | _ => braces s
  end.

Definition size_ok (mn : nat) (mx : option nat) : bool :=
  (mn <=? 1000)%nat
  && match mx with Some m => (m <=? 1000)%nat && (mn <=? m)%nat | None => true end.

(** The repetition operator after an atom, if any; a second operator
    right after it is refused. *)
Definition repeat (a : re) (s : list ascii) : option (re * list ascii) :=
  match quantifier s with
  | None => Some (a, s)
  | Some (mn, mx, s1) =>
      if size_ok mn mx then
        let '(g, s2) :=
          match s1 with "?" :: s2 => (false, s2) | _ => (true, s1) end in
        match quantifier s2 with
        | Some _ => None
        | None => Some (Rep g mn mx a, s2)
        end
      else None
  end.

Definition cat (a b : re) : re :=
  match a, b with
  | Empty, _ => b
  | _, Empty => a
  | _, _ => Cat a b
  end.

Fixpoint span_word (s : list ascii) : list ascii * list ascii :=
  match s with
  | c :: s' =>
      if is_word c then let '(w, r) := span_word s' in (c :: w, r) else ([], s)
  | [] => ([], [])
  end.

(** Parser state: the number of capture groups opened so far and their
    names, the latest first. *)
Definition pst : Type := nat * list string.

Fixpoint pAlt (fuel : nat) (s : list ascii) (st : pst)
  : option (re * list ascii * pst) :=
  match fuel with
  | O => None
  | S f =>
      '(a, s1, st1) ← pCat f s st;
      match s1 with
      | "|" :: s2 => '(b, s3, st2) ← pAlt f s2 st1; Some (Alt a b, s3, st2)
      | _ => Some (a, s1, st1)
      end
  end
with pCat (fuel : nat) (s : list ascii) (st : pst)
  : option (re * list ascii * pst) :=
  match fuel with
  | O => None
  | S f =>
      match s with
      | [] => Some (Empty, s, st)
      | "|" :: _ => Some (Empty, s, st)
      | ")" :: _ => Some (Empty, s, st)
      | _ =>
          '(a, s1, st1) ← pAtom f s st;
          '(a', s2) ← repeat a s1;
          '(b, s3, st2) ← pCat f s2 st1;
          Some (cat a' b, s3, st2)
      end
  end
with pAtom (fuel : nat) (s : list ascii) (st : pst)
  : option (re * list ascii * pst) :=
  match fuel with
  | O => None
  | S f =>
      match s with
      | [] => None
      | "(" :: "?" :: ":" :: s1 =>
          '(a, s2, st1) ← pAlt f s1 st;
          match s2 with ")" :: s3 => Some (a, s3, st1) | _ => None end
      | "(" :: "?" :: "P" :: "<" :: s1 =>
          let '(w, s2) := span_word s1 in
          match w, s2 with
          | _ :: _, ">" :: s3 =>
              let i := S (fst st) in
              '(a, s4, st1) ← pAlt f s3 (i, str w :: snd st);
              match s4 with
              | ")" :: s5 => Some (Cap i a, s5, st1)
              | _ => None
              end
          | _, _ => None
          end
      | "(" :: "?" :: _ => None
      | "(" :: s1 =>
          let i := S (fst st) in
          '(a, s2, st1) ← pAlt f s1 (i, ""%string :: snd st);
          match s2 with ")" :: s3 => Some (Cap i a, s3, st1) | _ => None end
      | "[" :: s1 => '(a, s2) ← parse_class s1; Some (a, s2, st)
      | "." :: s1 => Some (AnyNotNL, s1, st)
      | "^" :: s1 => Some (Bol, s1, st)
      | "$" :: s1 => Some (Eol, s1, st)
      | "*" :: _ => None
      | "+" :: _ => None
      | "?" :: _ => None
      | "\" :: c :: s1 =>
          if Ascii.eqb c "A" then Some (Bol, s1, st)
          else if Ascii.eqb c "z" then Some (Eol, s1, st)
          else if Ascii.eqb c "d" then Some (Class false perl_d, s1, st)
          else if Ascii.eqb c "w" then Some (Class false perl_w, s1, st)
          else if Ascii.eqb c "s" then Some (Class false perl_s, s1, st)
          else if Ascii.eqb c "D" then Some (Class true perl_d, s1, st)
          else if Ascii.eqb c "W" then Some (Class true perl_w, s1, st)
          else if Ascii.eqb c "S" then Some (Class true perl_s, s1, st)
          else d ← escaped_char c; Some (Lit d, s1, st)
      | "\" :: [] => None
      | c :: s1 =>
          match braces s with
          | Some _ => None
          | None => Some (Lit c, s1, st)
          end
      end
  end.

(** A compiled expression: its source, its syntax tree and the names
    of its groups, group 0 first. *)
Record Regexp : Type := mkRegexp {
  expr : string;
  prog : re;
  subexpNames : list string
}.

Definition Compile (e : string) : option Regexp :=
  let s := chars e in
  '(a, rest, st) ← pAlt (4 * length s + 4) s (0%nat, []);
  match rest with
  | [] => Some (mkRegexp e a (""%string :: rev (snd st)))
  | _ :: _ => None
  end.

(** regexp.MustCompile panics where Compile fails: [None]. *)
Definition MustCompile (e : string) : option Regexp := Compile e.

Definition SubexpNames (r : Regexp) : list string := subexpNames r.

Definition MatchString (r : Regexp) (s : string) : bool :=
  match search (prog r) 0 (chars s) with Some _ => true | None => false end.

(** The text of the leftmost match, empty when there is none. *)
Definition FindString (r : Regexp) (s : string) : string :=
  match search (prog r) 0 (chars s) with
  | Some cs => str (group_text (chars s) cs 0)
  | None => ""%string
  end.

(** The texts of the leftmost match and of its groups; nil ([None])
    when there is no match. *)
Definition FindStringSubmatch (r : Regexp) (s : string) : option (list string) :=
  match search (prog r) 0 (chars s) with
  | Some cs =>
      Some (map (fun i => str (group_text (chars s) cs i))
                (seq 0 (length (subexpNames r))))
  | None => None
  end.

(** *** Replacement *)

Definition all_digits (w : list ascii) : bool := forallb is_digit w.

(** The reference after a [$] of a template: its name, its number when
    the name is one, and the rest of the template. *)
Definition extract (t : list ascii)
  : option (list ascii * option nat * list ascii) :=
  let '(brace, t1) :=
    match t with "{" :: t1 => (true, t1) | _ => (false, t) end in
  let '(w, t2) := span_word t1 in
  match w with
  | [] => None
  | c0 :: w' =>
      let num :=
        if all_digits w && (length w <=? 9)%nat
           && negb (Ascii.eqb c0 "0" && negb (length w' =? 0)%nat)
        then fst <$> number 0 false w else None in
      if brace
      then match t2 with
           | "}" :: t3 => Some (w, num, t3)
           | _ => None
           end
      else Some (w, num, t2)
  end.

(** The first group called [name] that took part in the match. *)
Fixpoint named_text (src : list ascii) (cs : caps) (name : string)
         (i : nat) (names : list string) : list ascii :=
  match names with
  | [] => []
  | n :: names' =>
      match cap_lookup i cs with
      | Some (a, b) =>
          if String.eqb name n then slice a b src
          else named_text src cs name (S i) names'
      | None => named_text src cs name (S i) names'
      end
  end.

(** Regexp.expand: [$name], [${name}] and [$$] in a template. *)
Fixpoint expand (fuel : nat) (names : list string) (src : list ascii)
         (cs : caps) (t : list ascii) : list ascii :=
  match fuel with
  | O => t
  | S f =>
      match t with
      | [] => []
      | "$" :: "$" :: t' => "$" :: expand f names src cs t'
      | "$" :: t' =>
          match extract t' with
          | None => "$" :: expand f names src cs t'
          | Some (_, Some num, rest) =>
              group_text src cs num ++ expand f names src cs rest
          | Some (w, None, rest) =>
              named_text src cs (str w) 0 names ++ expand f names src cs rest
          end
      | c :: t' => c :: expand f names src cs t'
      end
  end.

(** Regexp.replaceAll: the matches are found left to right, each
    search starting where the last match ended and at least one byte
    further than the last search. *)
Fixpoint replace_loop (fuel : nat) (r : re) (src : list ascii)
         (repl : caps -> list ascii) (lastMatchEnd searchPos : nat)
         (buf : list ascii) : list ascii :=
  match fuel with
  | O => buf ++ drop lastMatchEnd src
  | S f =>
      if (length src <? searchPos)%nat then buf ++ drop lastMatchEnd src
      else
        match search r searchPos (drop searchPos src) with
        | None => buf ++ drop lastMatchEnd src
        | Some cs =>
            let '(a0, a1) := default (0, 0)%nat (cap_lookup 0 cs) in
            let buf := (buf ++ slice lastMatchEnd a0 src)%list in
            let buf :=
              if (lastMatchEnd <? a1)%nat || (a0 =? 0)%nat
              then (buf ++ repl cs)%list else buf in
            let width := if (searchPos <? length src)%nat then 1%nat else 0%nat in
            let searchPos' :=
              if (a1 <? searchPos + width)%nat then (searchPos + width)%nat
              else if (a1 <? searchPos + 1)%nat then (searchPos + 1)%nat
                   else a1 in
            replace_loop f r src repl a1 searchPos' buf
        end
  end.

Definition replaceAll (r : Regexp) (src : list ascii)
           (repl : caps -> list ascii) : list ascii :=
  replace_loop (length src + 1) (prog r) src repl 0 0 [].

Definition ReplaceAllString (r : Regexp) (src repl : string) : string :=
  let t := chars repl in
  str (replaceAll r (chars src)
         (fun cs => expand (length t + 1) (subexpNames r) (chars src) cs t)).

Definition ReplaceAllLiteralString (r : Regexp) (src repl : string) : string :=
  str (replaceAll r (chars src) (fun _ => chars repl)).

End Regexp.

(* ================================================================== *)
(** ** router.go *)

(** A value of Go's [interface{}]: the kinds router.go meets.  Handlers
    are functions, but any value fits the type, a slice of handlers
    too. *)
Inductive iface : Type :=
| IInt (z : Z)
| IString (s : string)
| IFunc (f : nat)
| ISlice (l : list iface).

Definition Handler : Type := iface.

(** Route: router.go never writes to a route after [newRoute], so the
    pointers the router keeps to one route are embedded as copies of
    its value. *)
Record Route : Type := mkRoute {
  method : string;
  Name : string;
  pattern : string;
  basePattern : string;
  Handlers : list Handler
}.

Record Router : Type := mkRouter {
  validExtensions : list string;
  routes : gmap string Route;
  routesByMethod : gmap string (list Route);
  regexesByMethod : gmap string (list Regexp.Regexp);
  matched : option Route;
  group : gmap string string
}.

Definition set_validExtensions (r : Router) (v : list string) : Router :=
  mkRouter v (routes r) (routesByMethod r) (regexesByMethod r) (matched r) (group r).
Definition set_routes (r : Router) (v : gmap string Route) : Router :=
  mkRouter (validExtensions r) v (routesByMethod r) (regexesByMethod r) (matched r) (group r).
Definition set_routesByMethod (r : Router) (v : gmap string (list Route)) : Router :=
  mkRouter (validExtensions r) (routes r) v (regexesByMethod r) (matched r) (group r).
Definition set_regexesByMethod (r : Router) (v : gmap string (list Regexp.Regexp)) : Router :=
  mkRouter (validExtensions r) (routes r) (routesByMethod r) v (matched r) (group r).
Definition set_matched (r : Router) (v : option Route) : Router :=
  mkRouter (validExtensions r) (routes r) (routesByMethod r) (regexesByMethod r) v (group r).
Definition set_group (r : Router) (v : gmap string string) : Router :=
  mkRouter (validExtensions r) (routes r) (routesByMethod r) (regexesByMethod r) (matched r) v.

(** Reading a Go map at a key it does not hold gives the zero value. *)
Definition at_key {V : Type} (zero : V) (m : gmap string V) (k : string) : V :=
  default zero (m !! k).

(** A constant pattern handed to MustCompile; the lemmas [*_compiles]
    below show that none of them panics. *)
Definition must (o : option Regexp.Regexp) : Regexp.Regexp :=
  default (Regexp.mkRegexp "" Regexp.Empty [""]) o.

Definition named : Regexp.Regexp :=
  must (Regexp.MustCompile ":([a-zA-Z0-9_]+)").
Definition namedRegex : Regexp.Regexp :=
  must (Regexp.MustCompile ":([a-zA-Z0-9_]+)\(([^\)]+)\)").
Definition extRegex : Regexp.Regexp :=
  must (Regexp.MustCompile "\.([^\.]+)$").

Definition newRoute (method name pattern : string) (handlers : list Handler) : Route :=
  let pattern := Strings.Replace pattern "(int)" "([0-9]+)" (-1) in
  let pattern := Strings.Replace pattern "(alpha)" "([a-z]+)" (-1) in
  let pattern := Strings.Replace pattern "(alphanumeric)" "([a-z0-9]+)" (-1) in
  let pattern := Strings.Replace pattern "(slug)" "([a-z0-9-]+)" (-1) in
  let pattern := Strings.Replace pattern "(mongo)" "([0-9a-fA-F]{24})" (-1) in
  let pattern := Strings.Replace pattern "(md5)" "([0-9a-fA-F]{32})" (-1) in
  let basePattern := Regexp.ReplaceAllString namedRegex pattern ":$1" in
  let pattern :=
    if Regexp.MatchString namedRegex pattern
    then Regexp.ReplaceAllString namedRegex pattern "(?P<$1>$2)"
    else Regexp.ReplaceAllString named pattern "(?P<$1>[^/]+)" in
  mkRoute (Strings.ToUpper method) name pattern basePattern handlers.

Definition New : Router :=
  mkRouter [""] ∅
    (<["GET" := []]> (<["POST" := []]> (<["PUT" := []]> (<["DELETE" := []]> ∅))))
    (<["GET" := []]> (<["POST" := []]> (<["PUT" := []]> (<["DELETE" := []]> ∅))))
    None ∅.

(** Route.URL: [None] is the panic of the type assertion on a key that
    is not a string. *)
Fixpoint Route_URL_loop (url : string) (params : list iface) : option string :=
  match params with
  | key :: value :: rest =>
      match key with
      | IString name =>
          let url :=
            match value with
            | IInt v => Strings.Replace url (":" +:+ name) (Strconv.Itoa v) (-1)
            | IString v => Strings.Replace url (":" +:+ name) v (-1)
            | _ => url
            end in
          Route_URL_loop url rest
      | _ => None
      end
  | _ => Some url
  end.

Definition Route_URL (r : Route) (params : list iface) : option string :=
  Route_URL_loop (basePattern r) params.

(** addRoute gives back the router it has updated and the new route. *)
Definition addRoute (r : Router) (method name pattern : string)
           (handlers : list Handler) : Router * Route :=
  let name :=
    if negb (String.eqb (at_key "" (group r) "name") "")
    then at_key "" (group r) "name" +:+ "_" +:+ name else name in
  let pattern :=
    if negb (String.eqb (at_key "" (group r) "prefix") "")
    then at_key "" (group r) "prefix" +:+ pattern else pattern in
  let route := newRoute method name pattern handlers in
  let r := set_routes r (<[name := route]> (routes r)) in
  let r := set_routesByMethod r
             (<[method := at_key [] (routesByMethod r) method ++ [route]]>
                (routesByMethod r)) in
  (r, route).

(** Get spreads its variadic handlers; Post, Put and Delete hand the
    slice itself over, as the one variadic argument of addRoute. *)
Definition Get (r : Router) (name pattern : string) (handlers : list Handler)
  : Router * Route :=
  addRoute r "GET" name pattern handlers.

Definition Post (r : Router) (name pattern : string) (handlers : list Handler)
  : Router * Route :=
  addRoute r "POST" name pattern [ISlice handlers].

Definition Put (r : Router) (name pattern : string) (handlers : list Handler)
  : Router * Route :=
  addRoute r "PUT" name pattern [ISlice handlers].

Definition Delete (r : Router) (name pattern : string) (handlers : list Handler)
  : Router * Route :=
  addRoute r "DELETE" name pattern [ISlice handlers].

Definition FindRoute (r : Router) (name : string) : option Route :=
  routes r !! name.

Definition ValidExtensions (r : Router) (extensions : list string) : Router :=
  set_validExtensions r extensions.

(** *** Compile *)

Definition entry (route : Route) : string :=
  "(?P<" +:+ Name route +:+ ">/)" +:+ Strings.TrimLeft (pattern route) "/" +:+ "|".

Definition wrap (pattern : string) : string :=
  "^(?:" +:+ Strings.TrimRight pattern "|" +:+ ")$".

(** The loop over the routes of one method: [i] is the index of the
    route at the head, [pattern] and [regs] are the local variable and
    the method's slice of compiled chunks.  [None] is a panic of
    MustCompile. *)
Fixpoint compile_loop (i : nat) (rs : list Route) (pattern : string)
         (regs : list Regexp.Regexp) : option (string * list Regexp.Regexp) :=
  match rs with
  | [] => Some (pattern, regs)
  | route :: rest =>
      let pattern := pattern +:+ entry route in
      if (0 <? i)%nat && (i mod 15 =? 0)%nat
      then
        let pattern := wrap pattern in
        re ← Regexp.MustCompile pattern;
        compile_loop (S i) rest pattern (regs ++ [re])
      else compile_loop (S i) rest pattern regs
  end.

Definition compile_method (rs : list Route) (regs : list Regexp.Regexp)
  : option (list Regexp.Regexp) :=
  '(pattern, regs) ← compile_loop 0 rs "" regs;
  re ← Regexp.MustCompile (wrap pattern);
  Some (regs ++ [re]).

Definition compile_step (method : string) (rs : list Route)
           (acc : option (gmap string (list Regexp.Regexp)))
  : option (gmap string (list Regexp.Regexp)) :=
  regs ← acc;
  new ← compile_method rs (at_key [] regs method);
  Some (<[method := new]> regs).

Definition Compile (r : Router) : option Router :=
  regs ← map_fold compile_step (Some (regexesByMethod r)) (routesByMethod r);
  Some (set_regexesByMethod r regs).

(** *** Dispatch *)

Definition extensionIsValid (r : Router) (ext : string) : bool :=
  existsb (String.eqb ext) (validExtensions r).

Definition params_t : Type := gmap string iface.

(** The loop over the group names of the chunk that matched; [i] is the
    index of the name at the head and [m] the submatches.  The router
    is threaded through for the write to its [matched] field. *)
Fixpoint params_loop (names : list string) (i : nat) (m : list string)
         (ext : string) (r : Router) (params : params_t) : Router * params_t :=
  match names with
  | [] => (r, params)
  | name :: names' =>
      let paramLength := size params in
      let mi := default "" (m !! i) in
      if (i =? 0)%nat || String.eqb mi ""
      then
        if (paramLength =? 0)%nat
        then params_loop names' (S i) m ext r params
        else (r, params)
      else if (paramLength =? 0)%nat
      then params_loop names' (S i) m ext
             (set_matched r (FindRoute r name)) (<["ext" := IString ext]> params)
      else
        match Strconv.Atoi mi with
        | Some intValue =>
            params_loop names' (S i) m ext r (<[name := IInt intValue]> params)
        | None =>
            params_loop names' (S i) m ext r (<[name := IString mi]> params)
        end
  end.

Definition result : Type := option Route * option params_t.

Fixpoint chunks_loop (regs : list Regexp.Regexp) (path ext : string)
         (r : Router) : Router * result :=
  match regs with
  | [] => (r, (None, None))
  | compiled :: rest =>
      match Regexp.FindStringSubmatch compiled path with
      | None => chunks_loop rest path ext r
      | Some m =>
          let '(r', params) :=
            params_loop (Regexp.SubexpNames compiled) 0 m ext r ∅ in
          (r', (matched r', Some params))
      end
  end.

(** The extension and the path without it. *)
Definition split_ext (path : string) : string * string :=
  let extMatch := Regexp.FindString extRegex path in
  if negb (String.eqb extMatch "")
  then (Strings.Replace extMatch "." "" 1,
        Regexp.ReplaceAllLiteralString extRegex path "")
  else ("", path).

Definition Dispatch (r : Router) (method path : string) : Router * result :=
  let '(ext, path) := split_ext path in
  if negb (extensionIsValid r ext) then (r, (None, None))
  else chunks_loop (at_key [] (regexesByMethod r) method) path ext r.

Definition URL (r : Router) (name : string) (params : list iface) : option string :=
  match FindRoute r name with
  | Some route => Route_URL route params
  | None => Some ""
  end.

(** Group: the callback works on the router it is handed and gives it
    back. *)
Definition Group (r : Router) (prefix name : string) (fn : Router -> Router)
           (handlers : list Handler) : Router :=
  let r := set_group r (<["prefix" := Strings.TrimRight prefix "/"]> (group r)) in
  let r := set_group r (<["name" := Strings.TrimRight name "_"]> (group r)) in
  let r := fn r in
  let r := set_group r (<["prefix" := ""]> (group r)) in
  let r := set_group r (<["name" := ""]> (group r)) in
  r.

(** The name and the pattern a registration ends up with: the ones
      given, behind the prefixes of the group context. *)
Definition full_name (r : Router) (name : string) : string :=
    if negb (String.eqb (at_key "" (group r) "name") "")
    then at_key "" (group r) "name" +:+ "_" +:+ name else name.

Definition full_pattern (r : Router) (pattern : string) : string :=
    if negb (String.eqb (at_key "" (group r) "prefix") "")
    then at_key "" (group r) "prefix" +:+ pattern else pattern.

(** *** Routers used as examples *)

(** Two registrations under one name. *)
Definition home_first : Router * Route := Get New "home" "/a" [IFunc 1].
Definition home_second : Router * Route :=
  Get (fst home_first) "home" "/b" [IFunc 2].


(** The group context a callback of [Group] finds. *)
Definition inner_name (name rname : string) : string :=
  if negb (String.eqb (Strings.TrimRight name "_") "")
  then Strings.TrimRight name "_" +:+ "_" +:+ rname else rname.

Definition inner_pattern (prefix rpattern : string) : string :=
  if negb (String.eqb (Strings.TrimRight prefix "/") "")
  then Strings.TrimRight prefix "/" +:+ rpattern else rpattern.

(** One GET route, compiled once, and compiled twice. *)
Definition home_routes : Router := fst (Get New "home" "/home" [IFunc 1]).
Definition home_router : option Router := Compile home_routes.
Definition home_router_again : option Router := home_router ≫= Compile.

(** [r'] is [r] but for its [matched] field. *)
Definition same_but_matched (r r' : Router) : Prop :=
  validExtensions r' = validExtensions r
  ∧ routes r' = routes r
  ∧ routesByMethod r' = routesByMethod r
  ∧ regexesByMethod r' = regexesByMethod r
  ∧ group r' = group r.

(** Sixteen GET routes /r00 ... /r15, one more than a chunk is said to
    hold. *)
Definition sixteen_names : list string :=
  ["r00"; "r01"; "r02"; "r03"; "r04"; "r05"; "r06"; "r07";
   "r08"; "r09"; "r10"; "r11"; "r12"; "r13"; "r14"; "r15"].

Definition register_plain (r : Router) (names : list string) : Router :=
  foldl (fun r n => fst (Get r n ("/" +:+ n) [])) r names.

Definition sixteen_routes : Router := register_plain New sixteen_names.

(** The chunk patterns of a method after Compile. *)
Definition compiled_exprs (r : Router) (method : string) : option (list string) :=
  r' ← Compile r; Some (map Regexp.expr (at_key [] (regexesByMethod r') method)).

(** The chunks as the documentation has them: the routes cut into
    groups of [chunkSize], each group wrapped into one pattern. *)
Definition chunkSize : nat := 15.

Fixpoint groups_of (fuel n : nat) (rs : list Route) : list (list Route) :=
  match fuel, rs with
  | _, [] => []
  | O, _ => []
  | S f, _ => take n rs :: groups_of f n (drop n rs)
  end.

Definition alternatives (rs : list Route) : string :=
  foldl (fun p route => p +:+ entry route) "" rs.

Definition chunks_of_fifteen (rs : list Route) : list string :=
  map (fun g => wrap (alternatives g)) (groups_of (length rs) chunkSize rs).

(** Two routes that both match /users/5, alone, in a table of two, and
    behind sixteen other routes. *)
Definition users_by_id (r : Router) : Router * Route :=
  Get r "first" "/users/:id(int)" [IFunc 1].
Definition users_by_name (r : Router) : Router * Route :=
  Get r "second" "/users/:name(alphanumeric)" [IFunc 2].

Definition two_users : Router := fst (users_by_name (fst (users_by_id New))).
Definition eighteen_routes : Router :=
  fst (users_by_name (fst (users_by_id sixteen_routes))).

(** The route and the parameters of a dispatch on the compiled router. *)
Definition dispatch_compiled (r : Router) (method path : string) : option result :=
  r' ← Compile r; Some (snd (Dispatch r' method path)).

(** The example of the README with one bare and one constrained
    placeholder. *)
Definition mixed_route : Route :=
  newRoute "GET" "articles_read" "/articles/:id/:slug(slug)" [].
Definition mixed_router : Router :=
  fst (Get New "articles_read" "/articles/:id/:slug(slug)" []).

(** The route of the round trip. *)
Definition articles_read (hs : list Handler) : Router * Route :=
  Get New "articles_read" "/articles/:channel/:id/:slug" hs.

Definition news_params : list iface :=
  [IString "channel"; IString "news"; IString "id"; IInt 5;
   IString "slug"; IString "x-y"].

(** That route registered behind the first [k] of the routes
    /r00 ... /r15. *)
Definition articles_behind (k : nat) : Router * Route :=
  Get (register_plain New (take k sixteen_names))
    "articles_read" "/articles/:channel/:id/:slug" [IFunc 1].

(** On that router, compiled: the route found under the name, the URL
    generated for [news_params], and what Dispatch returns for GET on
    the path /articles/news/5/x-y. *)
Definition round_trip_behind (k : nat)
  : option (option Route * option string * result) :=
  r ← Compile (fst (articles_behind k));
  Some (FindRoute r "articles_read", URL r "articles_read" news_params,
        snd (Dispatch r "GET" "/articles/news/5/x-y")).

Definition news_result : result :=
  (Some (snd (articles_read [IFunc 1])),
   Some (<["channel" := IString "news"]>
           (<["id" := IInt 5]>
              (<["slug" := IString "x-y"]> (<["ext" := IString ""]> ∅))))).

(** *** Extensions, on the text of a path *)

(** The text before and the text after the last [c0] of [s], when [s]
    holds a [c0]. *)
Fixpoint cut_last (c0 : ascii) (s : list ascii) : option (list ascii * list ascii) :=
  match s with
  | [] => None
  | c :: s' =>
      match cut_last c0 s' with
      | Some (b, a) => Some (c :: b, a)
      | None => if Ascii.eqb c c0 then Some ([], s') else None
      end
  end.

(** The extension and the path without it, read off the last "." of
    the whole path: a path without "." or with nothing after its last
    "." has the empty extension and stays as it is. *)
Definition last_dot_split (path : string) : string * string :=
  match cut_last "." (chars path) with
  | Some (b, (_ :: _) as a) => (str a, str b)
  | _ => ("", path)
  end.

(** The extension as the portion after the last "." of the final
    segment of the path, empty when that segment has no ".". *)
Definition final_segment (path : string) : list ascii :=
  match cut_last "/" (chars path) with
  | Some (_, seg) => seg
  | None => chars path
  end.

Definition final_segment_ext (path : string) : string :=
  match cut_last "." (final_segment path) with
  | Some (_, a) => str a
  | None => ""
  end.

(** A route of two segments, the first a placeholder. *)
Definition dir_router : Router := fst (Get New "dir" "/:dir/c" [IFunc 1]).

(** The syntax tree of the extension pattern [\.([^\.]+)$]. *)
Definition ext_prog : Regexp.re :=
  Regexp.Cat (Regexp.Lit ".")
    (Regexp.Cat
       (Regexp.Cap 1 (Regexp.Rep true 1 None (Regexp.Class true [("."%char, "."%char)])))
       Regexp.Eol).

(** The captures of a match of the extension pattern that starts at
    offset [a] and takes [n] bytes after the ".". *)
Definition ext_caps (a n : nat) : Regexp.caps :=
  [(0, (a, S a + n)); (1, (S a, S a + n))]%nat.

(** The loop over the chunks alone, on the compiled router, for a path
    and an extension given. *)
Definition chunks_compiled (r : Router) (method path ext : string) : option result :=
  r' ← Compile r;
  Some (snd (chunks_loop (at_key [] (regexesByMethod r') method) path ext r')).

(** What the loop over the methods computes: it panics when the chunks
    of one of the methods do, and otherwise has appended every method's
    chunks to the chunks the method had. *)
Definition fold_outcome (regs0 : gmap string (list Regexp.Regexp))
           (acc : option (gmap string (list Regexp.Regexp)))
           (m : gmap string (list Route)) : Prop :=
  match acc with
  | Some regs =>
      (∀ k rs, m !! k = Some rs → is_Some (compile_method rs []))
      ∧ ∀ k, regs !! k
             = match m !! k with
               | Some rs => (at_key [] regs0 k ++.) <$> compile_method rs []
               | None => regs0 !! k
               end
  | None => ∃ k rs, m !! k = Some rs ∧ compile_method rs [] = None
  end.

(** *** Further code of router.go *)

(** reflect.ValueOf(handler).Call(in) calls a handler that is a
    function and panics ([None]) on any other value.  A function
    handler stands for one that takes the response writer and the
    request; what it does with them is not modelled, the call is
    recorded by its number. *)
Definition call_handler (h : Handler) : option nat :=
  match h with
  | IFunc f => Some f
  | _ => None
  end.

Fixpoint call_handlers (hs : list Handler) (called : list nat) : option (list nat) :=
  match hs with
  | [] => Some called
  | h :: hs' => f ← call_handler h; call_handlers hs' (called ++ [f])
  end.

(** ServeHTTP, for the method and the path of the request: the router
    after the dispatch and the handlers called, in order; [None] is a
    panic, of the dereference of the nil route or of a call. *)
Definition ServeHTTP (r : Router) (method path : string)
  : Router * option (list nat) :=
  let '(r', (route, _)) := Dispatch r method path in
  match route with
  | None => (r', None)
  | Some route => (r', call_handlers (Handlers route) [])
  end.

(** A sequence of calls of Get. *)
Definition register_gets (r : Router) (l : list (string * string * list Handler))
  : Router :=
  foldl (fun r '(n, p, hs) => fst (Get r n p hs)) r l.

(** No group is open. *)
Definition no_group (r : Router) : Prop :=
  at_key "" (group r) "name" = "" ∧ at_key "" (group r) "prefix" = "".

(** The keys of the pairs handed to Route.URL are strings. *)
Fixpoint keys_are_strings (params : list iface) : bool :=
  match params with
  | key :: _ :: rest =>
      match key with
      | IString _ => keys_are_strings rest
      | _ => false
      end
  | _ => true
  end.

(** [old] occurs in [s]. *)
Fixpoint occurs (old s : list ascii) : bool :=
  Strings.HasPrefix s old
  || match s with
     | [] => false
     | _ :: s' => occurs old s'
     end.

(** The byte [c] occurs in [s]. *)
Definition has_char (c : ascii) (s : string) : bool :=
  existsb (Ascii.eqb c) (chars s).

(** The registrations of a group callback, with the prefixes of the
    group written out. *)
Definition prefixed (prefix name : string)
           (l : list (string * string * list Handler))
  : list (string * string * list Handler) :=
  map (fun '(n, p, hs) => (inner_name name n, inner_pattern prefix p, hs)) l.

(** One POST route with a function handler, compiled. *)
Definition posted_routes : Router := fst (Post New "create" "/articles" [IFunc 1]).
Definition posted_router : option Router := Compile posted_routes.


(** The text Route.URL puts in for a value. *)
Definition value_text (v : iface) : option string :=
  match v with
  | IInt z => Some (Strconv.Itoa z)
  | IString s => Some s
  | _ => None
  end.

(** *** Patterns with bare placeholders *)

(** The bytes of a placeholder name: the class [a-zA-Z0-9_] of the
    patterns of newRoute. *)
Definition name_char (c : ascii) : bool :=
  Regexp.in_class false
    [("a"%char, "z"%char); ("A"%char, "Z"%char); ("0"%char, "9"%char);
     ("_"%char, "_"%char)] c.

(** A text without ":" and "(". *)
Definition plain (s : string) : bool :=
  negb (has_char ":" s) && negb (has_char "(" s).

(** A text that does not go on with a byte of a name. *)
Definition apart (s : list ascii) : bool :=
  match s with
  | [] => true
  | c :: _ => negb (name_char c)
  end.

(** A bare placeholder and the plain text behind it: the name is not
    empty and the text does not run into it. *)
Definition piece_ok (p : string * string) : bool :=
  negb (String.eqb (fst p) "")
  && forallb name_char (chars (fst p))
  && plain (snd p)
  && apart (chars (snd p)).

(** The pattern of the pieces, and the match pattern with a named
    group for every placeholder. *)
Fixpoint with_placeholders (l : list (string * string)) : string :=
  match l with
  | [] => ""
  | (n, seg) :: l' => ":" +:+ n +:+ seg +:+ with_placeholders l'
  end.

Fixpoint with_groups (l : list (string * string)) : string :=
  match l with
  | [] => ""
  | (n, seg) :: l' => "(?P<" +:+ n +:+ ">[^/]+)" +:+ seg +:+ with_groups l'
  end.

(** *** A router with one plain route *)

(** The bytes that stand for themselves in a pattern and in a path:
    letters, digits, "_", "-" and "/". *)
Definition path_char (c : ascii) : bool :=
  name_char c || Ascii.eqb c "-" || Ascii.eqb c "/".

(** The syntax tree of a text of such bytes. *)
Fixpoint lits (w : list ascii) : Regexp.re :=
  match w with
  | [] => Regexp.Empty
  | c :: w' => Regexp.cat (Regexp.Lit c) (lits w')
  end.

(** A name of a route and the text of a path behind its first "/". *)
Definition route_name_ok (name : string) : bool :=
  negb (String.eqb name "") && forallb name_char (chars name).

Definition path_text_ok (w : string) : bool :=
  forallb path_char (chars w)
  && match chars w with
     | [] => true
     | c :: _ => negb (Ascii.eqb c "/")
     end.

(** New, the GET route [name] at the path "/" and [w], Compile. *)
Definition plain_route (name w : string) (hs : list Handler) : Route :=
  mkRoute "GET" name ("/" +:+ w) ("/" +:+ w) hs.

Definition one_route_router (name w : string) (hs : list Handler) : option Router :=
  Compile (fst (Get New name ("/" +:+ w) hs)).

(** The syntax tree of the chunk of the route at "/" and [w]. *)
Definition plain_chunk_tree (w : list ascii) : Regexp.re :=
  Regexp.cat Regexp.Bol
    (Regexp.cat (Regexp.cat (Regexp.Cap 1 (Regexp.Lit "/")) (lits w)) Regexp.Eol).

(** The chunk Compile makes of that route: the source it wraps, the
    tree of its text, and the names of its groups. *)
Definition plain_chunk (name w : string) (hs : list Handler) : Regexp.Regexp :=
  Regexp.mkRegexp (wrap (entry (plain_route name w hs)))
    (plain_chunk_tree (chars w)) [""; name].

(* ================================================================== *)
(** * Properties *)

(** The library functions stay folded when a goal is simplified. *)
Arguments Regexp.MustCompile : simpl never.
Arguments Regexp.FindStringSubmatch : simpl never.
Arguments Regexp.FindString : simpl never.
Arguments Strings.Replace : simpl never.
Arguments Strings.TrimLeft : simpl never.
Arguments Strings.TrimRight : simpl never.
Arguments Strconv.Atoi : simpl never.
Arguments wrap : simpl never.
Arguments entry : simpl never.

(** Splits a conjunction into its conjuncts, and leaves them as they
    are. *)
Ltac conjuncts := repeat match goal with |- _ ∧ _ => split end.

(** ** The constant patterns *)

Lemma named_compiles :
  Regexp.MustCompile ":([a-zA-Z0-9_]+)" = Some named.
Proof. vm_compute. reflexivity. Qed.

Lemma namedRegex_compiles :
  Regexp.MustCompile ":([a-zA-Z0-9_]+)\(([^\)]+)\)" = Some namedRegex.
Proof. vm_compute. reflexivity. Qed.

Lemma extRegex_compiles :
  Regexp.MustCompile "\.([^\.]+)$" = Some extRegex.
Proof. vm_compute. reflexivity. Qed.

(** ** Registration *)

Section Registration.

Variable r : Router.
Variables method name pattern : string.
Variable handlers : list Handler.

Lemma addRoute_route :
  snd (addRoute r method name pattern handlers)
  = newRoute method (full_name r name) (full_pattern r pattern) handlers.
Proof. reflexivity. Qed.

Lemma newRoute_Name : Name (newRoute method name pattern handlers) = name.
Proof. reflexivity. Qed.

Lemma newRoute_Handlers :
  Handlers (newRoute method name pattern handlers) = handlers.
Proof. reflexivity. Qed.

Lemma addRoute_routes :
  routes (fst (addRoute r method name pattern handlers))
  = <[full_name r name := snd (addRoute r method name pattern handlers)]> (routes r).
Proof. reflexivity. Qed.

Lemma addRoute_routesByMethod :
  routesByMethod (fst (addRoute r method name pattern handlers))
  = <[method := at_key [] (routesByMethod r) method
                ++ [snd (addRoute r method name pattern handlers)]]>
      (routesByMethod r).
Proof. reflexivity. Qed.

Lemma addRoute_frame :
  let r' := fst (addRoute r method name pattern handlers) in
  validExtensions r' = validExtensions r
  ∧ regexesByMethod r' = regexesByMethod r
  ∧ matched r' = matched r
  ∧ group r' = group r.
Proof. repeat split. Qed.

End Registration.

(** C10: Post, Put and Delete hand their variadic handlers to addRoute
    as one value, so the route they create holds a handler list of
    length 1 whose element is the whole argument slice, however many
    handlers were given; Get spreads them, and its route holds the n
    handlers themselves. *)
Theorem handlers_wrapped_but_for_Get (r : Router) (name pattern : string)
        (hs : list Handler) :
  Handlers (snd (Post r name pattern hs)) = [ISlice hs]
  ∧ Handlers (snd (Put r name pattern hs)) = [ISlice hs]
  ∧ Handlers (snd (Delete r name pattern hs)) = [ISlice hs]
  ∧ length (Handlers (snd (Post r name pattern hs))) = 1
  ∧ length (Handlers (snd (Put r name pattern hs))) = 1
  ∧ length (Handlers (snd (Delete r name pattern hs))) = 1
  ∧ Handlers (snd (Get r name pattern hs)) = hs
  ∧ length (Handlers (snd (Get r name pattern hs))) = length hs.
Proof.
  unfold Post, Put, Delete, Get.
  rewrite !addRoute_route, !newRoute_Handlers.
  repeat split.
Qed.

(** ** Duplicate names *)

(** C8, as stated, fails: a second registration under the name "home"
    goes through, and the name table then holds the second route where
    it held the first. *)
Lemma second_home_replaces_first :
  FindRoute (fst home_first) "home" = Some (snd home_first)
  ∧ FindRoute (fst home_second) "home" = Some (snd home_second)
  ∧ snd home_second ≠ snd home_first
  ∧ routes (fst home_second) ≠ routes (fst home_first).
Proof.
  assert (Hne : snd home_second ≠ snd home_first).
  { intros H. apply (f_equal pattern) in H. vm_compute in H. discriminate H. }
  assert (H1 : FindRoute (fst home_first) "home" = Some (snd home_first))
    by (vm_compute; reflexivity).
  assert (H2 : FindRoute (fst home_second) "home" = Some (snd home_second))
    by (vm_compute; reflexivity).
  repeat split; try assumption.
  intros H.
  assert (E : FindRoute (fst home_second) "home"
              = FindRoute (fst home_first) "home")
    by (unfold FindRoute; rewrite H; reflexivity).
  rewrite H1, H2 in E. congruence.
Qed.

(** C8, amended: registering a route under a name that is already
    registered does not fail.  The name table maps the name to the new
    route from then on and holds the same names as before; the new
    route is appended to the list of its method, which keeps all its
    earlier entries. *)
Theorem duplicate_name_overwrites (r : Router) (method name pattern : string)
        (hs : list Handler) (old : Route) :
  routes r !! full_name r name = Some old →
  let r' := fst (addRoute r method name pattern hs) in
  let route := snd (addRoute r method name pattern hs) in
  route = newRoute method (full_name r name) (full_pattern r pattern) hs
  ∧ FindRoute r' (full_name r name) = Some route
  ∧ routes r' = <[full_name r name := route]> (routes r)
  ∧ dom (routes r') = dom (routes r)
  ∧ routesByMethod r' !! method
    = Some (at_key [] (routesByMethod r) method ++ [route]).
Proof.
  intros Hold r' route. subst r' route.
  rewrite addRoute_routes, addRoute_routesByMethod, addRoute_route.
  unfold FindRoute. rewrite addRoute_routes, addRoute_route.
  repeat split.
  - apply lookup_insert_eq.
  - rewrite dom_insert_L. apply subseteq_union_1_L, singleton_subseteq_l.
    apply elem_of_dom. exists old. exact Hold.
  - apply lookup_insert_eq.
Qed.

Lemma duplicate_name_overwrites_witness :
  routes (fst home_first) !! full_name (fst home_first) "home"
  = Some (snd home_first)
  ∧ FindRoute (fst (addRoute (fst home_first) "GET" "home" "/b" [IFunc 2]))
      (full_name (fst home_first) "home")
    = Some (snd (addRoute (fst home_first) "GET" "home" "/b" [IFunc 2])).
Proof.
  split.
  - vm_compute. reflexivity.
  - apply (duplicate_name_overwrites (fst home_first) "GET" "home" "/b"
             [IFunc 2] (snd home_first)).
    vm_compute. reflexivity.
Defined.

(** ** Groups *)

Lemma at_key_insert_eq {V : Type} (zero v : V) (m : gmap string V) (k : string) :
  at_key zero (<[k := v]> m) k = v.
Proof. unfold at_key. rewrite lookup_insert_eq. reflexivity. Qed.

Lemma at_key_insert_ne {V : Type} (zero v : V) (m : gmap string V) (k k' : string) :
  k ≠ k' → at_key zero (<[k := v]> m) k' = at_key zero m k'.
Proof. intros H. unfold at_key. rewrite lookup_insert_ne by exact H. reflexivity. Qed.

Lemma prefix_is_not_name : "prefix" ≠ "name".
Proof. discriminate. Qed.

Lemma name_is_not_prefix : "name" ≠ "prefix".
Proof. discriminate. Qed.



(** ** What Dispatch writes *)

Lemma same_but_matched_refl (r : Router) : same_but_matched r r.
Proof. repeat split. Qed.

Lemma params_loop_frame (names : list string) :
  ∀ (i : nat) (m : list string) (ext : string) (r : Router) (params : params_t),
    same_but_matched r (fst (params_loop names i m ext r params))
    ∧ (matched (fst (params_loop names i m ext r params)) = matched r
       ∨ ∃ name, matched (fst (params_loop names i m ext r params))
                 = FindRoute r name).
Proof.
  induction names as [|name names IH]; intros i m ext r params.
  - split; [apply same_but_matched_refl | left; reflexivity].
  - cbn [params_loop].
    destruct ((i =? 0)%nat || String.eqb (default "" (m !! i)) "").
    + destruct (size params =? 0)%nat.
      * apply IH.
      * split; [apply same_but_matched_refl | left; reflexivity].
    + destruct (size params =? 0)%nat.
      * destruct (IH (S i) m ext (set_matched r (FindRoute r name))
                     (<["ext" := IString ext]> params)) as [Hs Hm].
        split; [exact Hs |]. right.
        destruct Hm as [Hm | [n Hm]]; [exists name | exists n]; exact Hm.
      * destruct (Strconv.Atoi (default "" (m !! i))); apply IH.
Qed.

Lemma chunks_loop_frame (regs : list Regexp.Regexp) (path ext : string)
      (r : Router) :
  same_but_matched r (fst (chunks_loop regs path ext r))
  ∧ (snd (chunks_loop regs path ext r) = (None, None)
     ∧ fst (chunks_loop regs path ext r) = r
     ∨ ∃ params,
         snd (chunks_loop regs path ext r)
         = (matched (fst (chunks_loop regs path ext r)), Some params)).
Proof.
  induction regs as [|compiled rest IH].
  - split; [apply same_but_matched_refl | left; split; reflexivity].
  - cbn [chunks_loop].
    destruct (Regexp.FindStringSubmatch compiled path) as [m|]; [| exact IH].
    pose proof (params_loop_frame (Regexp.SubexpNames compiled) 0 m ext r ∅)
      as [Hs _].
    destruct (params_loop (Regexp.SubexpNames compiled) 0 m ext r ∅)
      as [r' params].
    split; [exact Hs |]. right. exists params. reflexivity.
Qed.

(** C5, as stated, fails: on the router with the one route home, whose
    [matched] field is empty after Compile, dispatching GET /home
    leaves the route in that field. *)
Lemma dispatch_stores_matched_route :
  ∃ r route,
    home_router = Some r
    ∧ matched r = None
    ∧ FindRoute r "home" = Some route
    ∧ matched (fst (Dispatch r "GET" "/home")) = Some route
    ∧ fst (Dispatch r "GET" "/home") ≠ r.
Proof.
  destruct home_router as [r|] eqn:Hr; [| vm_compute in Hr; discriminate Hr].
  exists r, (newRoute "GET" "home" "/home" [IFunc 1]).
  assert (Hm : matched r = None)
    by (vm_compute in Hr; injection Hr as <-; reflexivity).
  assert (Hd : matched (fst (Dispatch r "GET" "/home"))
               = Some (newRoute "GET" "home" "/home" [IFunc 1]))
    by (vm_compute in Hr; injection Hr as <-; vm_compute; reflexivity).
  repeat split.
  - exact Hm.
  - vm_compute in Hr. injection Hr as <-. vm_compute. reflexivity.
  - exact Hd.
  - intros E. rewrite E, Hm in Hd. discriminate Hd.
Qed.

(** C5, amended: Dispatch leaves the fields routes, routesByMethod,
    regexesByMethod, validExtensions and group of the router unchanged,
    but it does write the shared field matched.  A call that finds no
    match returns the no-match result and leaves the router as it was;
    a call that finds a matching chunk returns, with the parameters,
    the route it reads back from the matched field. *)
Theorem dispatch_writes_matched_only (r : Router) (method path : string) :
  same_but_matched r (fst (Dispatch r method path))
  ∧ (snd (Dispatch r method path) = (None, None)
     ∧ fst (Dispatch r method path) = r
     ∨ ∃ params,
         snd (Dispatch r method path)
         = (matched (fst (Dispatch r method path)), Some params)).
Proof.
  unfold Dispatch. destruct (split_ext path) as [ext stripped].
  destruct (negb (extensionIsValid r ext)).
  - split; [apply same_but_matched_refl | left; split; reflexivity].
  - apply chunks_loop_frame.
Qed.

(** ** Compile *)

Lemma compile_loop_app (rs : list Route) :
  ∀ (i : nat) (pattern : string) (regs : list Regexp.Regexp),
    compile_loop i rs pattern regs
    = (λ pl, (fst pl, regs ++ snd pl)) <$> compile_loop i rs pattern [].
Proof.
  induction rs as [|route rest IH]; intros i pattern regs.
  - cbn. rewrite app_nil_r. reflexivity.
  - cbn [compile_loop].
    destruct ((0 <? i)%nat && (i mod 15 =? 0)%nat); [| apply IH].
    destruct (Regexp.MustCompile (wrap (pattern +:+ entry route))) as [re|];
      [| reflexivity].
    cbn [mbind option_bind].
    rewrite (IH (S i) _ (regs ++ [re])), (IH (S i) _ ([] ++ [re])).
    destruct (compile_loop (S i) rest (wrap (pattern +:+ entry route)) [])
      as [[p l]|]; [| reflexivity].
    cbn. rewrite <- app_assoc. reflexivity.
Qed.

Lemma compile_method_app (rs : list Route) (regs : list Regexp.Regexp) :
  compile_method rs regs = (regs ++.) <$> compile_method rs [].
Proof.
  unfold compile_method. rewrite (compile_loop_app rs 0 "" regs).
  destruct (compile_loop 0 rs "" []) as [[p l]|]; [| reflexivity].
  cbn. destruct (Regexp.MustCompile (wrap p)) as [re|]; [| reflexivity].
  cbn. rewrite <- app_assoc. reflexivity.
Qed.

Lemma compile_fold (regs0 : gmap string (list Regexp.Regexp))
      (m : gmap string (list Route)) :
  fold_outcome regs0 (map_fold compile_step (Some regs0) m) m.
Proof.
  apply (map_fold_weak_ind (fold_outcome regs0)).
  - split; [intros k rs H; rewrite lookup_empty in H; discriminate H |].
    intros k. rewrite lookup_empty. reflexivity.
  - intros i x m' acc Hi IH. destruct acc as [regs|]; cbn in IH |- *.
    + destruct IH as [Hok Hlk]. rewrite compile_method_app.
      destruct (compile_method x []) as [chunks|] eqn:Hx; cbn.
      * split.
        -- intros k rs Hk. destruct (decide (i = k)) as [->|Hne].
           ++ rewrite lookup_insert_eq in Hk. injection Hk as <-.
              rewrite Hx. eexists; reflexivity.
           ++ rewrite lookup_insert_ne in Hk by exact Hne. eapply Hok, Hk.
        -- intros k. destruct (decide (i = k)) as [->|Hne].
           ++ rewrite !lookup_insert_eq, Hx. cbn. unfold at_key.
              rewrite Hlk, Hi. reflexivity.
           ++ rewrite !lookup_insert_ne by exact Hne. apply Hlk.
      * exists i, x. rewrite lookup_insert_eq. split; [reflexivity | exact Hx].
    + destruct IH as (k & rs & Hk & Hnone). exists k, rs. split; [| exact Hnone].
      rewrite lookup_insert_ne; [exact Hk |]. intros ->. rewrite Hi in Hk.
      discriminate Hk.
Qed.

Lemma Compile_Some (r r1 : Router) :
  Compile r = Some r1 →
  r1 = set_regexesByMethod r (regexesByMethod r1)
  ∧ (∀ k rs, routesByMethod r !! k = Some rs → is_Some (compile_method rs []))
  ∧ ∀ k, regexesByMethod r1 !! k
         = match routesByMethod r !! k with
           | Some rs =>
               (at_key [] (regexesByMethod r) k ++.) <$> compile_method rs []
           | None => regexesByMethod r !! k
           end.
Proof.
  unfold Compile. intros H.
  pose proof (compile_fold (regexesByMethod r) (routesByMethod r)) as Hf.
  destruct (map_fold compile_step (Some (regexesByMethod r)) (routesByMethod r))
    as [regs|]; [| discriminate H].
  cbn in H. injection H as <-. cbn in Hf. destruct Hf as [Hok Hlk].
  repeat split; assumption.
Qed.

Lemma Compile_succeeds (r : Router) :
  (∀ k rs, routesByMethod r !! k = Some rs → is_Some (compile_method rs [])) →
  is_Some (Compile r).
Proof.
  intros Hok. unfold Compile.
  pose proof (compile_fold (regexesByMethod r) (routesByMethod r)) as Hf.
  destruct (map_fold compile_step (Some (regexesByMethod r)) (routesByMethod r))
    as [regs|]; [eexists; reflexivity |].
  cbn in Hf. destruct Hf as (k & rs & Hk & Hnone).
  destruct (Hok k rs Hk) as [c Hc]. rewrite Hc in Hnone. discriminate Hnone.
Qed.

(** C2, as stated, fails: compiled once, the router with the one route
    home has one GET chunk; compiled again with no registration in
    between it has two, the chunk of the first call followed by a copy
    of it. *)
Lemma second_compile_keeps_first_chunks :
  ∃ r1 r2 chunk,
    home_router = Some r1
    ∧ Compile r1 = Some r2
    ∧ regexesByMethod r1 !! "GET" = Some [chunk]
    ∧ regexesByMethod r2 !! "GET" = Some [chunk; chunk]
    ∧ regexesByMethod r2 ≠ regexesByMethod r1.
Proof.
  destruct home_router as [r1|] eqn:H1; [| vm_compute in H1; discriminate H1].
  destruct (Compile r1) as [r2|] eqn:H2;
    [| vm_compute in H1; injection H1 as <-; vm_compute in H2; discriminate H2].
  exists r1, r2,
    (must (Regexp.MustCompile "^(?:(?P<home>/)home)$")).
  assert (G1 : regexesByMethod r1 !! "GET"
               = Some [must (Regexp.MustCompile "^(?:(?P<home>/)home)$")])
    by (vm_compute in H1; injection H1 as <-; vm_compute; reflexivity).
  assert (G2 : regexesByMethod r2 !! "GET"
               = Some [must (Regexp.MustCompile "^(?:(?P<home>/)home)$");
                       must (Regexp.MustCompile "^(?:(?P<home>/)home)$")]).
  { vm_compute in H1. injection H1 as <-. vm_compute in H2.
    injection H2 as <-. vm_compute. reflexivity. }
  repeat split; try assumption; try reflexivity.
  intros E. rewrite E, G1 in G2. discriminate G2.
Qed.

(** C2, amended: Compile neither discards nor is idempotent.  For every
    router state, a call of Compile that returns keeps the chunks a
    method had and appends the chunks compiled from the method's routes
    to them; a second call with no registration in between returns too,
    and leaves in the method's table the chunks from before the first
    call followed by two copies of the compiled chunks. *)
Theorem compile_appends (r r1 : Router) (m : string) (rs : list Route) :
  Compile r = Some r1 →
  routesByMethod r !! m = Some rs →
  ∃ chunks r2,
    compile_method rs [] = Some chunks
    ∧ regexesByMethod r1 !! m
      = Some (at_key [] (regexesByMethod r) m ++ chunks)
    ∧ Compile r1 = Some r2
    ∧ regexesByMethod r2 !! m
      = Some (at_key [] (regexesByMethod r) m ++ chunks ++ chunks).
Proof.
  intros H1 Hm.
  destruct (Compile_Some r r1 H1) as (Hr1 & Hok & Hlk).
  assert (Hrbm : routesByMethod r1 = routesByMethod r) by (rewrite Hr1; reflexivity).
  destruct (Hok m rs Hm) as [chunks Hc].
  destruct (Compile_succeeds r1) as [r2 H2]; [rewrite Hrbm; exact Hok |].
  exists chunks, r2.
  pose proof (Hlk m) as L1. rewrite Hm, Hc in L1. cbn in L1.
  destruct (Compile_Some r1 r2 H2) as (_ & _ & Hlk2).
  pose proof (Hlk2 m) as L2. rewrite Hrbm, Hm, Hc in L2. cbn in L2.
  unfold at_key at 1 in L2. rewrite L1 in L2. cbn in L2.
  rewrite <- app_assoc in L2.
  repeat split; assumption.
Qed.

Lemma compile_appends_witness :
  Compile home_routes = Some (default New home_router)
  ∧ routesByMethod home_routes !! "GET"
    = Some [newRoute "GET" "home" "/home" [IFunc 1]]
  ∧ ∃ chunks r2,
      compile_method [newRoute "GET" "home" "/home" [IFunc 1]] [] = Some chunks
      ∧ regexesByMethod (default New home_router) !! "GET"
        = Some (at_key [] (regexesByMethod home_routes) "GET" ++ chunks)
      ∧ Compile (default New home_router) = Some r2
      ∧ regexesByMethod r2 !! "GET"
        = Some (at_key [] (regexesByMethod home_routes) "GET" ++ chunks ++ chunks).
Proof.
  assert (H1 : Compile home_routes = Some (default New home_router))
    by (vm_compute; reflexivity).
  assert (H2 : routesByMethod home_routes !! "GET"
               = Some [newRoute "GET" "home" "/home" [IFunc 1]])
    by (vm_compute; reflexivity).
  split; [exact H1 |]. split; [exact H2 |].
  exact (compile_appends home_routes (default New home_router) "GET"
           [newRoute "GET" "home" "/home" [IFunc 1]] H1 H2).
Defined.

(** ** Chunks *)

Lemma MustCompile_expr (e : string) (re : Regexp.Regexp) :
  Regexp.MustCompile e = Some re → Regexp.expr re = e.
Proof.
  unfold Regexp.MustCompile, Regexp.Compile.
  destruct (Regexp.pAlt _ _ _) as [[[a rest] st]|]; [| discriminate].
  cbn. destruct rest; [| discriminate]. intros [= <-]. reflexivity.
Qed.

Lemma compile_loop_below (rs : list Route) :
  ∀ (i : nat) (p : string) (regs : list Regexp.Regexp),
    (i + length rs ≤ 15)%nat →
    compile_loop i rs p regs
    = Some (foldl (λ p route, p +:+ entry route) p rs, regs).
Proof.
  induction rs as [|route rest IH]; intros i p regs Hi; [reflexivity |].
  cbn [compile_loop foldl]. cbn [length] in Hi.
  replace ((0 <? i)%nat && (i mod 15 =? 0)%nat) with false.
  - apply IH. lia.
  - symmetry. destruct i as [|i]; [reflexivity |].
    rewrite Nat.mod_small by lia. reflexivity.
Qed.

(** Up to fifteen routes the chunks are those of the documentation:
    one chunk with an alternative for every route. *)
Lemma up_to_fifteen_routes_one_chunk (rs : list Route)
      (chunks : list Regexp.Regexp) :
  (1 ≤ length rs ≤ 15)%nat →
  compile_method rs [] = Some chunks →
  map Regexp.expr chunks = chunks_of_fifteen rs.
Proof.
  intros [Hlo Hhi]. unfold compile_method.
  rewrite compile_loop_below by (cbn; lia). cbn [mbind option_bind].
  destruct (Regexp.MustCompile _) as [re|] eqn:Hre; [| discriminate].
  cbn. intros [= <-]. cbn [map app]. rewrite (MustCompile_expr _ _ Hre).
  unfold chunks_of_fifteen, chunkSize.
  destruct rs as [|route rest]; [cbn in Hlo; lia |].
  cbn [length groups_of]. rewrite take_ge, drop_ge by (cbn [length] in *; lia).
  destruct (length rest); reflexivity.
Qed.

(** C1 at sixteen GET routes: Compile closes its first chunk after the
    entry with index 15, so the chunk holds all sixteen alternatives,
    and it goes on with the closed pattern instead of an empty one, so
    the chunk after the loop is the first chunk wrapped once more.  Cut
    into groups of fifteen, the routes give a chunk of fifteen
    alternatives and a chunk of one. *)
Theorem sixteen_routes_one_chunk_of_sixteen :
  let rs := at_key [] (routesByMethod sixteen_routes) "GET" in
  length rs = 16
  ∧ compiled_exprs sixteen_routes "GET"
    = Some [wrap (alternatives rs); wrap (wrap (alternatives rs))]
  ∧ chunks_of_fifteen rs
    = [wrap (alternatives (take 15 rs)); wrap (alternatives (drop 15 rs))]
  ∧ compiled_exprs sixteen_routes "GET" ≠ Some (chunks_of_fifteen rs).
Proof.
  cbv zeta. conjuncts.
  - vm_compute. reflexivity.
  - vm_compute. reflexivity.
  - vm_compute. reflexivity.
  - intros H. vm_compute in H. discriminate H.
Qed.

(** C3 behind sixteen routes: the routes first (/users/:id(int)) and
    second (/users/:name(alphanumeric)) both match /users/5, and in a
    table of their own the one registered first is returned; registered
    in the same order after sixteen other GET routes, it is the one
    registered second that Dispatch returns. *)
Theorem second_route_wins_behind_sixteen :
  dispatch_compiled (fst (users_by_id New)) "GET" "/users/5"
  = Some (Some (snd (users_by_id New)),
          Some (<["id" := IInt 5]> (<["ext" := IString ""]> ∅)))
  ∧ dispatch_compiled (fst (users_by_name New)) "GET" "/users/5"
    = Some (Some (snd (users_by_name New)),
            Some (<["name" := IInt 5]> (<["ext" := IString ""]> ∅)))
  ∧ dispatch_compiled two_users "GET" "/users/5"
    = Some (Some (snd (users_by_id New)),
            Some (<["id" := IInt 5]> (<["ext" := IString ""]> ∅)))
  ∧ map Name (at_key [] (routesByMethod eighteen_routes) "GET")
    = sixteen_names ++ ["first"; "second"]
  ∧ dispatch_compiled eighteen_routes "GET" "/users/5"
    = Some (Some (snd (users_by_name New)),
            Some (<["name" := IInt 5]> (<["ext" := IString ""]> ∅))).
Proof. conjuncts; vm_compute; reflexivity. Qed.

(** ** Patterns *)

(** C7 at the pattern /articles/:id/:slug(slug): the constrained
    placeholder becomes a named group, the bare one stays in the
    pattern as the text ":id"; the route then matches the path
    /articles/:id/a-b and does not match /articles/10/a-b. *)
Theorem bare_placeholder_stays_literal :
  pattern mixed_route = "/articles/:id/(?P<slug>[a-z0-9-]+)"
  ∧ pattern mixed_route ≠ "/articles/(?P<id>[^/]+)/(?P<slug>[a-z0-9-]+)"
  ∧ basePattern mixed_route = "/articles/:id/:slug"
  ∧ dispatch_compiled mixed_router "GET" "/articles/10/a-b" = Some (None, None)
  ∧ dispatch_compiled mixed_router "GET" "/articles/:id/a-b"
    = Some (Some mixed_route,
            Some (<["slug" := IString "a-b"]> (<["ext" := IString ""]> ∅))).
Proof.
  conjuncts; try (vm_compute; reflexivity).
  intros H. vm_compute in H. discriminate H.
Qed.

(** ** Round trip *)

(** The round trip on the router that holds the route articles_read
    alone: whatever its handlers, the URL generated for channel =
    "news", id = 5, slug = "x-y" is /articles/news/5/x-y, from the
    route and from the router alike, and dispatching GET on that path
    returns that route with channel = "news", id = 5 as an integer and
    slug = "x-y" (and the empty extension). *)
Lemma url_then_dispatch_round_trip (hs : list Handler) :
  let route := snd (articles_read hs) in
  Route_URL route news_params = Some "/articles/news/5/x-y"
  ∧ ∃ r,
      Compile (fst (articles_read hs)) = Some r
      ∧ URL r "articles_read" news_params = Some "/articles/news/5/x-y"
      ∧ snd (Dispatch r "GET" "/articles/news/5/x-y")
        = (Some route,
           Some (<["channel" := IString "news"]>
                   (<["id" := IInt 5]>
                      (<["slug" := IString "x-y"]>
                         (<["ext" := IString ""]> ∅))))).
Proof.
  cbv zeta. split; [vm_compute; reflexivity |].
  eexists. split; [vm_compute; reflexivity |].
  conjuncts; vm_compute; reflexivity.
Qed.

(** C4 behind sixteen routes: registered behind the first k of the
    routes /r00 ... /r15, the route articles_read is in the compiled
    router and the URL generated for channel = "news", id = 5, slug =
    "x-y" is /articles/news/5/x-y, for every k from 0 to 16.
    Dispatching GET on that path returns the route with channel =
    "news", id = 5 as an integer and slug = "x-y" for every k from 0
    to 15; behind all sixteen routes it returns no route and no
    parameters.  Compile does not reset its pattern after the chunk it
    closes at index 15, so the alternative of the route with index 16
    stands behind the "$" of that chunk. *)
Theorem round_trip_lost_behind_sixteen :
  map round_trip_behind (seq 0 16)
  = replicate 16 (Some (Some (snd (articles_read [IFunc 1])),
                        Some "/articles/news/5/x-y", news_result))
  ∧ round_trip_behind 16
    = Some (Some (snd (articles_read [IFunc 1])),
            Some "/articles/news/5/x-y", (None, None)).
Proof. split; vm_compute; reflexivity. Qed.

(** ** The extension of a path *)

Section RepLoop.

Import Regexp.

Variable runa : nat → list ascii → caps → kont → option caps.
Variables (g : bool) (mn : nat) (mx : option nat) (k : kont).

Lemma rep_loop_O (cnt pos : nat) (s : list ascii) (cs : caps) :
  rep_loop runa g mn mx k 0 cnt pos s cs
  = if (mn <=? cnt)%nat then k pos s cs else None.
Proof. reflexivity. Qed.

Lemma rep_loop_S (fuel cnt pos : nat) (s : list ascii) (cs : caps) :
  rep_loop runa g mn mx k (S fuel) cnt pos s cs
  = let more :=
      if below cnt mx
      then runa pos s cs
             (fun p1 s1 c1 =>
                if (cnt <? mn)%nat || (pos <? p1)%nat
                then rep_loop runa g mn mx k fuel (S cnt) p1 s1 c1 else None)
      else None in
    let stop := if (mn <=? cnt)%nat then k pos s cs else None in
    if g
    then match more with Some c => Some c | None => stop end
    else match stop with Some c => Some c | None => more end.
Proof. reflexivity. Qed.

End RepLoop.

Section ClassToEnd.

Import Regexp.

Variables (neg : bool) (rs : list (ascii * ascii)) (k : kont).
Hypothesis k_at_end : ∀ p c s cs, k p (c :: s) cs = None.

(** A greedy [+] of a class in front of a continuation that wants the
    end of the text: it takes the whole rest of the text, or fails. *)
Lemma plus_class_to_end (s : list ascii) :
  ∀ (fuel cnt p : nat) (cs : caps),
    (length s ≤ fuel)%nat →
    rep_loop (run (Class neg rs)) true 1 None k fuel cnt p s cs
    = if forallb (in_class neg rs) s && (1 <=? cnt + length s)%nat
      then k (p + length s) [] cs else None.
Proof.
  induction s as [|c s IH]; intros fuel cnt p cs Hfuel.
  - cbn [forallb length andb]. rewrite !Nat.add_0_r.
    destruct fuel; [apply rep_loop_O |].
    rewrite rep_loop_S. reflexivity.
  - destruct fuel as [|fuel]; [cbn in Hfuel; lia |].
    rewrite rep_loop_S. cbn [below run step1 forallb length].
    destruct (in_class neg rs c) eqn:Hc; cbn [andb].
    + replace (p <? S p)%nat with true by (symmetry; apply Nat.ltb_lt; lia).
      rewrite orb_true_r, IH by (cbn in Hfuel; lia).
      replace (1 <=? S cnt + length s)%nat with true
        by (symmetry; apply Nat.leb_le; lia).
      replace (1 <=? cnt + S (length s))%nat with true
        by (symmetry; apply Nat.leb_le; lia).
      replace (S p + length s) with (p + S (length s)) by lia.
      rewrite k_at_end.
      destruct (forallb (in_class neg rs) s); cbn [andb];
        [destruct (k (p + S (length s)) [] cs) |];
        destruct (1 <=? cnt)%nat; reflexivity.
    + rewrite k_at_end. destruct (1 <=? cnt)%nat; reflexivity.
Qed.

End ClassToEnd.

Section ExtPattern.

Import Regexp.

Lemma extRegex_prog : prog extRegex = ext_prog.
Proof. vm_compute. reflexivity. Qed.

Lemma not_dot (c : ascii) :
  in_class true [("."%char, "."%char)] c = negb (Ascii.eqb c ".").
Proof.
  unfold in_class, in_range. cbn [existsb fst snd]. rewrite orb_false_r.
  destruct (Ascii.eqb_spec c ".") as [->|Hne]; [reflexivity |].
  cbn [negb xorb].
  destruct ((nat_of_ascii "." <=? nat_of_ascii c)%nat
            && (nat_of_ascii c <=? nat_of_ascii ".")%nat) eqn:E; [| reflexivity].
  apply andb_true_iff in E as [E1 E2].
  apply Nat.leb_le in E1, E2. exfalso. apply Hne.
  rewrite <- (ascii_nat_embedding c), <- (ascii_nat_embedding ".").
  f_equal. lia.
Qed.

Lemma cut_last_None (c0 : ascii) (s : list ascii) :
  cut_last c0 s = None → forallb (λ c, negb (Ascii.eqb c c0)) s = true.
Proof.
  induction s as [|c s IH]; [reflexivity |]. cbn [cut_last forallb].
  destruct (cut_last c0 s) as [[b a]|]; [discriminate |].
  destruct (Ascii.eqb c c0); [discriminate |]. intros _. cbn. apply IH. reflexivity.
Qed.

Lemma cut_last_Some (c0 : ascii) (s b a : list ascii) :
  cut_last c0 s = Some (b, a) →
  s = b ++ c0 :: a ∧ forallb (λ c, negb (Ascii.eqb c c0)) s = false.
Proof.
  revert b a. induction s as [|c s IH]; intros b a; [discriminate |].
  cbn [cut_last forallb].
  destruct (cut_last c0 s) as [[b' a']|].
  - intros [= <- <-]. destruct (IH b' a' eq_refl) as [-> ->].
    split; [reflexivity | apply andb_false_r].
  - destruct (Ascii.eqb_spec c c0) as [->|]; [| discriminate].
    intros [= <- <-]. split; reflexivity.
Qed.

Lemma forallb_not_dot (s : list ascii) :
  forallb (in_class true [("."%char, "."%char)]) s
  = forallb (λ c, negb (Ascii.eqb c ".")) s.
Proof.
  induction s as [|c s IH]; cbn [forallb]; [| rewrite not_dot, IH]; reflexivity.
Qed.

(** The extension pattern at one offset: a ".", then the whole rest of
    the text, which is not empty and holds no ".". *)
Lemma run_ext (pos : nat) (s : list ascii) :
  run ext_prog pos s [] (fun p _ c => Some ((0%nat, (pos, p)) :: c))
  = match s with
    | c :: s1 =>
        if Ascii.eqb "." c && forallb (λ c, negb (Ascii.eqb c ".")) s1
           && (1 <=? length s1)%nat
        then Some (ext_caps pos (length s1)) else None
    | [] => None
    end.
Proof.
  destruct s as [|c s1]; [reflexivity |].
  unfold ext_prog. cbn [run step1].
  destruct (Ascii.eqb "." c); [| reflexivity]. cbn [andb].
  etransitivity.
  { apply plus_class_to_end; [reflexivity | lia]. }
  rewrite forallb_not_dot. cbn [Nat.add].
  destruct (forallb _ s1 && (1 <=? length s1)%nat); reflexivity.
Qed.

(** The leftmost match of the extension pattern starts at the last "."
    of the text, if something follows it. *)
Lemma search_ext (s : list ascii) :
  ∀ pos : nat,
    search ext_prog pos s
    = match cut_last "." s with
      | Some (b, (_ :: _) as a) => Some (ext_caps (pos + length b) (length a))
      | _ => None
      end.
Proof.
  induction s as [|c s IH]; intros pos.
  - reflexivity.
  - cbn [search cut_last]. rewrite run_ext, IH.
    destruct (cut_last "." s) as [[b a]|] eqn:Hcut.
    + destruct (cut_last_Some _ _ _ _ Hcut) as [_ ->].
      rewrite andb_false_r. cbn [andb length].
      replace (S pos + length b) with (pos + S (length b)) by lia. reflexivity.
    + rewrite (cut_last_None _ _ Hcut), andb_true_r.
      rewrite (Ascii.eqb_sym "." c).
      destruct (Ascii.eqb c "."); cbn [andb]; [| reflexivity].
      destruct s as [|c1 s1]; [reflexivity |].
      cbn [length Nat.leb]. rewrite Nat.add_0_r. reflexivity.
Qed.

End ExtPattern.

Section SplitExt.

Import Regexp.

Lemma replace_from_zero (old new s : list ascii) :
  Strings.replace_from old new 0 0 s = s.
Proof. destruct s; reflexivity. Qed.

Lemma group0_ext (b a : list ascii) :
  group_text (b ++ "."%char :: a) (ext_caps (0 + length b) (length a)) 0
  = "."%char :: a.
Proof.
  unfold group_text, ext_caps, slice. cbn [cap_lookup Nat.eqb Nat.add].
  replace (S (length b + length a) - length b) with (S (length a)) by lia.
  rewrite drop_app_length. cbn [take]. rewrite firstn_all. reflexivity.
Qed.

Lemma replace_loop_S (f : nat) (r : re) (src : list ascii)
      (repl : caps → list ascii) (l p : nat) (buf : list ascii) :
  replace_loop (S f) r src repl l p buf
  = if (length src <? p)%nat then buf ++ drop l src
    else
      match search r p (drop p src) with
      | None => buf ++ drop l src
      | Some cs =>
          let '(a0, a1) := default (0, 0)%nat (cap_lookup 0 cs) in
          let buf := buf ++ slice l a0 src in
          let buf := if (l <? a1)%nat || (a0 =? 0)%nat then buf ++ repl cs else buf in
          let width := if (p <? length src)%nat then 1%nat else 0%nat in
          let p' :=
            if (a1 <? p + width)%nat then (p + width)%nat
            else if (a1 <? p + 1)%nat then (p + 1)%nat else a1 in
          replace_loop f r src repl a1 p' buf
      end.
Proof. reflexivity. Qed.

(** A step of the replacement loop at a match that is not empty. *)
Lemma replace_loop_match (f : nat) (r : re) (src : list ascii)
      (repl : caps → list ascii) (l p : nat) (buf : list ascii)
      (cs : caps) (a0 a1 : nat) :
  (p ≤ length src)%nat →
  search r p (drop p src) = Some cs →
  cap_lookup 0 cs = Some (a0, a1) →
  (p < a1)%nat → (l < a1)%nat →
  replace_loop (S f) r src repl l p buf
  = replace_loop f r src repl a1 a1 ((buf ++ slice l a0 src) ++ repl cs).
Proof.
  intros Hp Hs Hc Hpa Hla. rewrite replace_loop_S, Hs, Hc. cbn [from_option id].
  replace (length src <? p)%nat with false by (symmetry; apply Nat.ltb_ge; lia).
  replace (l <? a1)%nat with true by (symmetry; apply Nat.ltb_lt; lia).
  cbn [orb].
  replace (a1 <? p + (if (p <? length src)%nat then 1 else 0))%nat with false
    by (symmetry; apply Nat.ltb_ge; destruct (p <? length src)%nat; lia).
  replace (a1 <? p + 1)%nat with false by (symmetry; apply Nat.ltb_ge; lia).
  reflexivity.
Qed.

(** The last step of the replacement loop. *)
Lemma replace_loop_done (f : nat) (r : re) (src : list ascii)
      (repl : caps → list ascii) (l p : nat) (buf : list ascii) :
  search r p (drop p src) = None →
  replace_loop (S f) r src repl l p buf = buf ++ drop l src.
Proof.
  intros Hs. rewrite replace_loop_S, Hs.
  destruct (length src <? p)%nat; reflexivity.
Qed.

(** Replacing the matches of the extension pattern by nothing cuts the
    text at its last ".". *)
Lemma replaceAll_ext (b a : list ascii) (c : ascii) :
  cut_last "." (b ++ "."%char :: c :: a) = Some (b, c :: a) →
  replace_loop (length (b ++ "."%char :: c :: a) + 1) ext_prog
    (b ++ "."%char :: c :: a) (λ _, []) 0 0 []
  = b.
Proof.
  intros Hcut. set (src := b ++ "."%char :: c :: a) in *.
  assert (Hlen : length src = S (S (length b + length a))).
  { subst src. rewrite length_app. cbn [length]. lia. }
  rewrite Hlen. cbn [Nat.add].
  rewrite (replace_loop_match _ _ _ _ _ _ _
             (ext_caps (0 + length b) (length (c :: a)))
             (0 + length b) (S (0 + length b) + length (c :: a)));
    [| lia | rewrite drop_0, search_ext, Hcut; reflexivity | reflexivity
     | cbn [length]; lia | cbn [length]; lia].
  rewrite replace_loop_done.
  - rewrite drop_ge by (rewrite Hlen; cbn [length]; lia).
    rewrite !app_nil_r. unfold slice. rewrite drop_0, Nat.sub_0_r.
    subst src. cbn [Nat.add]. apply take_app_length.
  - rewrite drop_ge by (rewrite Hlen; cbn [length]; lia). reflexivity.
Qed.

(** What Dispatch takes for the extension, and the path it goes on
    with, read off the last "." of the path. *)
Lemma split_ext_last_dot (path : string) :
  split_ext path = last_dot_split path.
Proof.
  unfold split_ext, last_dot_split, FindString, ReplaceAllLiteralString,
    replaceAll.
  rewrite extRegex_prog, search_ext.
  destruct (cut_last "." (chars path)) as [[b [|c a]]|] eqn:Hcut;
    try reflexivity.
  destruct (cut_last_Some _ _ _ _ Hcut) as [Hsrc _].
  rewrite Hsrc in Hcut |- *. rewrite group0_ext.
  cbn [str String.eqb negb].
  change (String "." (String c (str a))) with (str ("."%char :: c :: a)).
  change (chars "") with (@nil ascii).
  rewrite (replaceAll_ext b a c Hcut). f_equal.
  unfold Strings.Replace. change (chars ".") with ["."%char].
  change (chars "") with (@nil ascii).
  rewrite list_ascii_of_string_of_list_ascii.
  cbn [Strings.replace_from Strings.HasPrefix length Nat.sub app].
  change (1 =? 0)%Z with false. change (Ascii.eqb "." ".") with true.
  change (1 - 1)%Z with 0%Z. cbv iota.
  rewrite replace_from_zero. reflexivity.
Qed.

End SplitExt.

(** C6 at the path /a.b/c: the final segment c holds no "." and so has
    the empty extension, but the class [^\.] of the extension pattern
    takes a "/" too: Dispatch takes b/c for the extension and /a for
    the path, and so, with the default whitelist that allows requests
    without an extension, finds no match for a path that the route
    /:dir/c matches, with dir = "a.b", once the extension is the empty
    one. *)
Theorem dot_before_final_segment_is_cut :
  final_segment_ext "/a.b/c" = ""
  ∧ split_ext "/a.b/c" = ("b/c", "/a")
  ∧ fst (split_ext "/a.b/c") ≠ final_segment_ext "/a.b/c"
  ∧ dispatch_compiled dir_router "GET" "/a.b/c" = Some (None, None)
  ∧ chunks_compiled dir_router "GET" "/a.b/c" ""
    = Some (Some (snd (Get New "dir" "/:dir/c" [IFunc 1])),
            Some (<["dir" := IString "a.b"]> (<["ext" := IString ""]> ∅))).
Proof.
  conjuncts.
  - vm_compute. reflexivity.
  - vm_compute. reflexivity.
  - intros H. vm_compute in H. discriminate H.
  - vm_compute. reflexivity.
  - vm_compute. reflexivity.
Qed.

(** What Dispatch computes, for every path: it splits at the last "."
    of the whole path when the path holds a "." and does not end with
    it, and takes the empty extension and the path as it is otherwise;
    a path whose extension is not in the whitelist yields the no-match
    result, and the chunks are matched against the path that is
    left. *)
Lemma dispatch_splits_at_last_dot (r : Router) (method path : string) :
  Dispatch r method path
  = let '(ext, stripped) := last_dot_split path in
    if extensionIsValid r ext
    then chunks_loop (at_key [] (regexesByMethod r) method) stripped ext r
    else (r, (None, None)).
Proof.
  unfold Dispatch. rewrite split_ext_last_dot.
  destruct (last_dot_split path) as [ext stripped].
  destruct (extensionIsValid r ext); reflexivity.
Qed.

(** * Further properties *)

(** ** Registration and lookup *)

(** X1: after a registration, FindRoute and URL resolve the name the
    route was registered under (the name given, behind the name prefix
    of an open group) to the new route, and every other name as they
    did before. *)
Theorem registered_name_resolves (r : Router) (method name pattern : string)
        (hs : list Handler) (other : string) (params : list iface) :
  let r' := fst (addRoute r method name pattern hs) in
  let route := snd (addRoute r method name pattern hs) in
  FindRoute r' other
  = (if decide (other = full_name r name) then Some route else FindRoute r other)
  ∧ URL r' other params
    = (if decide (other = full_name r name)
       then Route_URL route params else URL r other params).
Proof.
  cbv zeta. unfold URL, FindRoute. rewrite addRoute_routes.
  destruct (decide (other = full_name r name)) as [->|Hne].
  - rewrite lookup_insert_eq. split; reflexivity.
  - rewrite lookup_insert_ne by (intros E; apply Hne; symmetry; exact E).
    split; reflexivity.
Qed.

Lemma no_group_full_name (r : Router) (name : string) :
  no_group r → full_name r name = name.
Proof. intros [Hn _]. unfold full_name. rewrite Hn. reflexivity. Qed.

Lemma no_group_full_pattern (r : Router) (pattern : string) :
  no_group r → full_pattern r pattern = pattern.
Proof. intros [_ Hp]. unfold full_pattern. rewrite Hp. reflexivity. Qed.

Lemma no_group_addRoute (r : Router) (method name pattern : string)
      (hs : list Handler) :
  no_group r → no_group (fst (addRoute r method name pattern hs)).
Proof. intros H. exact H. Qed.

Lemma at_key_lookup {V : Type} (zero : V) (m : gmap string V) (k : string) (v : V) :
  m !! k = Some v → at_key zero m k = v.
Proof. intros H. unfold at_key. rewrite H. reflexivity. Qed.

(** X2: outside a group, a sequence of calls of Get appends its routes
    to the GET list in the order of the calls, behind the routes the
    list held, and leaves the list of every other method as it was. *)
Theorem gets_keep_registration_order
        (l : list (string * string * list Handler)) :
  ∀ r : Router,
    no_group r →
    at_key [] (routesByMethod (register_gets r l)) "GET"
    = at_key [] (routesByMethod r) "GET"
      ++ map (fun '(n, p, hs) => newRoute "GET" n p hs) l
    ∧ ∀ m, m ≠ "GET" →
           routesByMethod (register_gets r l) !! m = routesByMethod r !! m.
Proof.
  induction l as [|[[n p] hs] l IH]; intros r Hr.
  - cbn. rewrite app_nil_r. split; [reflexivity | intros; reflexivity].
  - cbn [register_gets foldl map].
    fold (register_gets (fst (Get r n p hs)) l).
    destruct (IH (fst (Get r n p hs))) as [IH1 IH2];
      [apply no_group_addRoute; exact Hr |].
    unfold Get in *. rewrite addRoute_routesByMethod, addRoute_route in IH1, IH2.
    rewrite (no_group_full_name r n Hr), (no_group_full_pattern r p Hr)
      in IH1, IH2.
    rewrite at_key_insert_eq in IH1. split.
    + rewrite IH1, <- app_assoc. reflexivity.
    + intros m Hm. rewrite (IH2 m Hm).
      apply lookup_insert_ne. intros E. apply Hm. symmetry. exact E.
Qed.

Lemma gets_keep_registration_order_witness :
  no_group New
  ∧ at_key [] (routesByMethod
                 (register_gets New [("a", "/a", []); ("b", "/b", [])])) "GET"
    = at_key [] (routesByMethod New) "GET"
      ++ map (fun '(n, p, hs) => newRoute "GET" n p hs)
           [("a", "/a", []); ("b", "/b", [])].
Proof.
  assert (H : no_group New) by (split; vm_compute; reflexivity).
  split; [exact H |].
  exact (proj1 (gets_keep_registration_order
                  [("a", "/a", []); ("b", "/b", [])] New H)).
Defined.

(** ** Groups *)

Lemma register_gets_group (l : list (string * string * list Handler)) :
  ∀ r : Router, group (register_gets r l) = group r.
Proof.
  induction l as [|[[n p] hs] l IH]; intros r; [reflexivity |].
  cbn [register_gets foldl]. fold (register_gets (fst (Get r n p hs)) l).
  rewrite IH. reflexivity.
Qed.

Lemma register_gets_in_group (prefix name : string)
      (l : list (string * string * list Handler)) :
  ∀ r1 r : Router,
    routes r1 = routes r →
    routesByMethod r1 = routesByMethod r →
    at_key "" (group r1) "name" = Strings.TrimRight name "_" →
    at_key "" (group r1) "prefix" = Strings.TrimRight prefix "/" →
    no_group r →
    routes (register_gets r1 l)
    = routes (register_gets r (prefixed prefix name l))
    ∧ routesByMethod (register_gets r1 l)
      = routesByMethod (register_gets r (prefixed prefix name l)).
Proof.
  induction l as [|[[n p] hs] l IH]; intros r1 r Hroutes Hrbm Hn Hp Hr.
  - split; assumption.
  - cbn [register_gets foldl prefixed map].
    fold (register_gets (fst (Get r1 n p hs)) l).
    fold (prefixed prefix name l).
    fold (register_gets
            (fst (Get r (inner_name name n) (inner_pattern prefix p) hs))
            (prefixed prefix name l)).
    apply IH; unfold Get.
    + rewrite !addRoute_routes, !addRoute_route.
      rewrite (no_group_full_name r _ Hr), (no_group_full_pattern r _ Hr).
      unfold full_name, full_pattern. rewrite Hn, Hp, Hroutes. reflexivity.
    + rewrite !addRoute_routesByMethod, !addRoute_route.
      rewrite (no_group_full_name r _ Hr), (no_group_full_pattern r _ Hr).
      unfold full_name, full_pattern. rewrite Hn, Hp, Hrbm. reflexivity.
    + exact Hn.
    + exact Hp.
    + exact Hr.
Qed.

(** X3: outside any other group, a Group whose callback makes a
    sequence of calls of Get leaves the same name table and the same
    per-method route lists as that sequence of calls made directly with
    the prefixes written out (the name prefix and "_" in front of each
    name, the path prefix in front of each pattern, both prefixes
    trimmed), and no group is open afterwards. *)
Theorem group_is_prefixed_registration (r : Router) (prefix name : string)
        (l : list (string * string * list Handler)) (hs : list Handler) :
  no_group r →
  let g := Group r prefix name (fun r0 => register_gets r0 l) hs in
  let d := register_gets r (prefixed prefix name l) in
  routes g = routes d
  ∧ routesByMethod g = routesByMethod d
  ∧ no_group g.
Proof.
  intros Hr. cbv zeta. unfold Group. cbn [routes routesByMethod set_group].
  destruct (register_gets_in_group prefix name l
              (set_group
                 (set_group r (<["prefix" := Strings.TrimRight prefix "/"]> (group r)))
                 (<["name" := Strings.TrimRight name "_"]>
                    (<["prefix" := Strings.TrimRight prefix "/"]> (group r))))
              r) as [H1 H2]; try reflexivity; try exact Hr.
  - cbn [group set_group]. apply at_key_insert_eq.
  - cbn [group set_group].
    rewrite at_key_insert_ne by exact name_is_not_prefix.
    apply at_key_insert_eq.
  - conjuncts; [exact H1 | exact H2 |]. split; cbn [group set_group].
    + apply at_key_insert_eq.
    + rewrite at_key_insert_ne by exact name_is_not_prefix.
      apply at_key_insert_eq.
Qed.

Lemma group_is_prefixed_registration_witness :
  no_group New
  ∧ routes (Group New "/articles" "articles"
              (fun r0 => register_gets r0 [("read", "/:id(int)", [])]) [])
    = routes (register_gets New
                (prefixed "/articles" "articles" [("read", "/:id(int)", [])])).
Proof.
  assert (H : no_group New) by (split; vm_compute; reflexivity).
  split; [exact H |].
  exact (proj1 (group_is_prefixed_registration New "/articles" "articles"
                  [("read", "/:id(int)", [])] [] H)).
Defined.

Lemma chars_app (a b : string) : chars (a +:+ b) = chars a ++ chars b.
Proof.
  induction a as [|c a IH]; [reflexivity |].
  change (c :: chars (a +:+ b) = c :: (chars a ++ chars b)). f_equal. exact IH.
Qed.

Lemma TrimRight_trailing (s cut : string) (c : ascii) :
  Strings.in_cutset (chars cut) c = true →
  Strings.TrimRight (s +:+ String c "") cut = Strings.TrimRight s cut.
Proof.
  intros Hc. unfold Strings.TrimRight. rewrite chars_app. cbn [chars].
  rewrite rev_app_distr. cbn [rev app Strings.trim_left]. rewrite Hc.
  reflexivity.
Qed.

(** X4: Group takes no notice of a "/" at the end of its path prefix or
    of a "_" at the end of its name prefix. *)
Theorem group_ignores_trailing_separators (r : Router) (prefix name : string)
        (fn : Router → Router) (hs : list Handler) :
  Group r (prefix +:+ "/") (name +:+ "_") fn hs = Group r prefix name fn hs.
Proof.
  unfold Group.
  rewrite (TrimRight_trailing prefix "/" "/") by reflexivity.
  rewrite (TrimRight_trailing name "_" "_") by reflexivity.
  reflexivity.
Qed.

(** ** URL generation *)

Lemma Route_URL_loop_keys (params : list iface) :
  (∀ url, if keys_are_strings params
          then is_Some (Route_URL_loop url params)
          else Route_URL_loop url params = None)
  ∧ ∀ x url, if keys_are_strings (x :: params)
             then is_Some (Route_URL_loop url (x :: params))
             else Route_URL_loop url (x :: params) = None.
Proof.
  induction params as [|v rest [IH1 IH2]].
  - split; intros; cbn; eexists; reflexivity.
  - split; [apply IH2 |].
    intros key url. cbn [keys_are_strings Route_URL_loop].
    destruct key; try reflexivity. apply IH1.
Qed.

(** X5: Route.URL returns for every list of parameters in which each
    key (the entries at even positions that have a value behind them)
    is a string, whatever the values are, and panics on every other
    list. *)
Theorem url_panics_on_non_string_key (route : Route) (params : list iface) :
  if keys_are_strings params
  then is_Some (Route_URL route params)
  else Route_URL route params = None.
Proof. apply Route_URL_loop_keys. Qed.

Lemma replace_from_absent (old new : list ascii) (n : Z) (s : list ascii) :
  occurs old s = false → Strings.replace_from old new n 0 s = s.
Proof.
  induction s as [|c s IH]; [reflexivity |].
  cbn [occurs Strings.replace_from]. intros H.
  apply orb_false_iff in H as [Hp Ho]. rewrite Hp.
  destruct (n =? 0)%Z; [reflexivity |]. rewrite (IH Ho). reflexivity.
Qed.

Lemma Replace_absent (s old new : string) (n : Z) :
  old ≠ "" → occurs (chars old) (chars s) = false →
  Strings.Replace s old new n = s.
Proof.
  intros Hold Hocc. unfold Strings.Replace.
  destruct (chars old) as [|c o] eqn:E.
  - exfalso. apply Hold. rewrite <- (string_of_list_ascii_of_string old), E.
    reflexivity.
  - rewrite replace_from_absent by exact Hocc.
    apply string_of_list_ascii_of_string.
Qed.

(** X6: a pair of Route.URL whose placeholder, ":" and the key, does
    not occur in the URL built so far changes nothing: the result is
    that of the remaining pairs alone, whatever the value of the pair
    is. *)
Theorem url_skips_absent_placeholder (url name : string) (value : iface)
        (rest : list iface) :
  occurs (chars (":" +:+ name)) (chars url) = false →
  Route_URL_loop url (IString name :: value :: rest) = Route_URL_loop url rest.
Proof.
  intros H. cbn [Route_URL_loop].
  destruct value; try reflexivity;
    rewrite Replace_absent by (try discriminate; exact H); reflexivity.
Qed.

Lemma url_skips_absent_placeholder_witness :
  occurs (chars (":" +:+ "page")) (chars "/articles/:id") = false
  ∧ Route_URL_loop "/articles/:id" [IString "page"; IInt 2; IString "id"; IInt 7]
    = Route_URL_loop "/articles/:id" [IString "id"; IInt 7].
Proof.
  split; [vm_compute; reflexivity |].
  apply (url_skips_absent_placeholder "/articles/:id" "page" (IInt 2)
           [IString "id"; IInt 7]).
  vm_compute. reflexivity.
Defined.

(** ** Dispatch *)

Lemma size_with_ext (params : params_t) :
  is_Some (params !! "ext") → (size params =? 0)%nat = false.
Proof.
  unfold params_t in *. intros [v Hv]. apply Nat.eqb_neq. intros H.
  apply map_size_empty_iff in H. subst params.
  rewrite lookup_empty in Hv. discriminate Hv.
Qed.

Lemma ext_stays (params : params_t) (k : string) (v : iface) :
  is_Some (params !! "ext") → is_Some (<[k := v]> params !! "ext").
Proof.
  unfold params_t in *. intros H. destruct (decide (k = "ext")) as [->|Hne].
  - rewrite lookup_insert_eq. eexists; reflexivity.
  - rewrite lookup_insert_ne by exact Hne. exact H.
Qed.

(** Once the route is found, the loop over the groups only adds
    parameters. *)
Lemma params_loop_collect (names : list string) :
  ∀ (i : nat) (m : list string) (ext : string) (r : Router) (params : params_t),
    is_Some (params !! "ext") →
    fst (params_loop names i m ext r params) = r
    ∧ is_Some (snd (params_loop names i m ext r params) !! "ext").
Proof.
  induction names as [|name names IH]; intros i m ext r params Hext.
  - split; [reflexivity | exact Hext].
  - cbn [params_loop]. rewrite (size_with_ext params Hext).
    destruct ((i =? 0)%nat || String.eqb (default "" (m !! i)) "").
    + split; [reflexivity | exact Hext].
    + destruct (Strconv.Atoi (default "" (m !! i)));
        apply IH, ext_stays, Hext.
Qed.

(** Before the route is found, the loop either runs out of groups and
    leaves everything as it was, or finds the route under the name of a
    group. *)
Lemma params_loop_find (names : list string) :
  ∀ (i : nat) (m : list string) (ext : string) (r : Router),
    params_loop names i m ext r ∅ = (r, ∅)
    ∨ ∃ name,
        name ∈ names
        ∧ fst (params_loop names i m ext r ∅) = set_matched r (FindRoute r name)
        ∧ is_Some (snd (params_loop names i m ext r ∅) !! "ext").
Proof.
  induction names as [|name names IH]; intros i m ext r.
  - left. reflexivity.
  - cbn [params_loop]. unfold params_t in *. rewrite map_size_empty.
    cbn [Nat.eqb].
    destruct ((i =? 0)%nat || String.eqb (default "" (m !! i)) "").
    + destruct (IH (S i) m ext r) as [H | (n & Hn & H1 & H2)]; [left; exact H |].
      right. exists n. split; [right; exact Hn | split; assumption].
    + right. exists name.
      destruct (params_loop_collect names (S i) m ext
                  (set_matched r (FindRoute r name))
                  (<["ext" := IString ext]> ∅)) as [H1 H2].
      { unfold params_t. rewrite lookup_insert_eq. eexists; reflexivity. }
      split; [left | split; assumption].
Qed.

Lemma chunks_loop_outcome (regs : list Regexp.Regexp) (path ext : string)
      (r : Router) :
  chunks_loop regs path ext r = (r, (None, None))
  ∨ chunks_loop regs path ext r = (r, (matched r, Some ∅))
  ∨ ∃ compiled name params,
      compiled ∈ regs
      ∧ name ∈ Regexp.SubexpNames compiled
      ∧ is_Some (params !! "ext")
      ∧ chunks_loop regs path ext r
        = (set_matched r (FindRoute r name), (FindRoute r name, Some params)).
Proof.
  induction regs as [|compiled rest IH]; [left; reflexivity |].
  cbn [chunks_loop].
  destruct (Regexp.FindStringSubmatch compiled path) as [m|].
  - destruct (params_loop_find (Regexp.SubexpNames compiled) 0 m ext r)
      as [H | (name & Hn & H1 & H2)].
    + rewrite H. right. left. reflexivity.
    + right. right.
      destruct (params_loop (Regexp.SubexpNames compiled) 0 m ext r ∅)
        as [r' params]. cbn [fst snd] in H1, H2. subst r'.
      exists compiled, name, params.
      conjuncts; [left | exact Hn | exact H2 | reflexivity].
  - destruct IH as [H | [H | (c & name & params & Hc & Hn & He & H)]].
    + left. exact H.
    + right. left. exact H.
    + right. right. exists c, name, params.
      conjuncts; [right; exact Hc | exact Hn | exact He | exact H].
Qed.

(** X7: a call of Dispatch has one of three outcomes.  It finds no
    match and leaves the router as it was; or a chunk of the method
    matches without any of its groups capturing text, and the call
    returns the route an earlier call left in the matched field, with
    an empty parameter map; or it returns the route that the name
    table holds under the name of a group of a chunk of the method
    (none, if the table has no such name), stores it in the matched
    field, and returns parameters that hold the key ext. *)
Theorem dispatch_outcomes (r : Router) (method path : string) :
  Dispatch r method path = (r, (None, None))
  ∨ Dispatch r method path = (r, (matched r, Some ∅))
  ∨ ∃ compiled name params,
      compiled ∈ at_key [] (regexesByMethod r) method
      ∧ name ∈ Regexp.SubexpNames compiled
      ∧ is_Some (params !! "ext")
      ∧ Dispatch r method path
        = (set_matched r (FindRoute r name), (FindRoute r name, Some params)).
Proof.
  unfold Dispatch. destruct (split_ext path) as [ext stripped].
  destruct (negb (extensionIsValid r ext)); [left; reflexivity |].
  apply chunks_loop_outcome.
Qed.

Lemma compile_no_routes :
  compile_method [] [] = Some [must (Regexp.MustCompile "^(?:)$")].
Proof. vm_compute. reflexivity. Qed.

Lemma Compile_fields (r r' : Router) :
  Compile r = Some r' →
  validExtensions r' = validExtensions r
  ∧ routes r' = routes r
  ∧ routesByMethod r' = routesByMethod r
  ∧ matched r' = matched r
  ∧ group r' = group r.
Proof.
  intros H. destruct (Compile_Some r r' H) as [E _]. rewrite E.
  conjuncts; reflexivity.
Qed.

(** X8: after Compile, a method that has a route list without routes
    and had no chunks has one chunk, and this chunk matches the empty
    path without capturing anything: where the empty extension is
    valid, Dispatch of the empty path for such a method returns, with
    an empty parameter map, the route that is in the matched field,
    that is the route an earlier call matched for whatever method and
    path. *)
Theorem empty_path_returns_earlier_match (r r' : Router) (method : string) :
  Compile r = Some r' →
  routesByMethod r !! method = Some [] →
  at_key [] (regexesByMethod r) method = [] →
  extensionIsValid r "" = true →
  ∀ earlier : option Route,
    Dispatch (set_matched r' earlier) method ""
    = (set_matched r' earlier, (earlier, Some ∅)).
Proof.
  intros Hc Hrs Hold Hext earlier.
  destruct (Compile_Some r r' Hc) as (_ & _ & Hlk).
  destruct (Compile_fields r r' Hc) as (Hve & _).
  specialize (Hlk method). rewrite Hrs, Hold, compile_no_routes in Hlk.
  cbn [fmap option_fmap option_map app] in Hlk.
  unfold Dispatch.
  change (split_ext "") with ("", "").
  unfold extensionIsValid in *. cbn [validExtensions set_matched].
  rewrite Hve, Hext. cbn [negb].
  cbn [regexesByMethod]. rewrite (at_key_lookup _ _ _ _ Hlk).
  cbn [chunks_loop].
  change (Regexp.FindStringSubmatch (must (Regexp.MustCompile "^(?:)$")) "")
    with (Some [""]).
  change (Regexp.SubexpNames (must (Regexp.MustCompile "^(?:)$"))) with [""].
  cbn [params_loop Nat.eqb orb]. unfold params_t. rewrite map_size_empty.
  reflexivity.
Qed.

Lemma empty_path_returns_earlier_match_witness :
  Compile home_routes = Some (default New home_router)
  ∧ routesByMethod home_routes !! "POST" = Some []
  ∧ at_key [] (regexesByMethod home_routes) "POST" = []
  ∧ extensionIsValid home_routes "" = true
  ∧ Dispatch (set_matched (default New home_router)
                (Some (newRoute "GET" "home" "/home" [IFunc 1]))) "POST" ""
    = (set_matched (default New home_router)
         (Some (newRoute "GET" "home" "/home" [IFunc 1])),
       (Some (newRoute "GET" "home" "/home" [IFunc 1]), Some ∅)).
Proof.
  assert (H1 : Compile home_routes = Some (default New home_router))
    by (vm_compute; reflexivity).
  assert (H2 : routesByMethod home_routes !! "POST" = Some [])
    by (vm_compute; reflexivity).
  assert (H3 : at_key [] (regexesByMethod home_routes) "POST" = [])
    by (vm_compute; reflexivity).
  assert (H4 : extensionIsValid home_routes "" = true)
    by (vm_compute; reflexivity).
  conjuncts; try assumption.
  exact (empty_path_returns_earlier_match home_routes (default New home_router)
           "POST" H1 H2 H3 H4 (Some (newRoute "GET" "home" "/home" [IFunc 1]))).
Defined.

(** ** Extensions *)

Lemma cut_last_absent (c0 : ascii) (s : list ascii) :
  existsb (Ascii.eqb c0) s = false → cut_last c0 s = None.
Proof.
  induction s as [|c s IH]; [reflexivity |]. cbn [existsb cut_last].
  intros H. apply orb_false_iff in H as [Hc Hs].
  rewrite (IH Hs), Ascii.eqb_sym, Hc. reflexivity.
Qed.

Lemma cut_last_after (c0 : ascii) (s : list ascii) :
  ∀ b a, cut_last c0 s = Some (b, a) → existsb (Ascii.eqb c0) a = false.
Proof.
  induction s as [|c s IH]; intros b a; [discriminate |]. cbn [cut_last].
  destruct (cut_last c0 s) as [[b' a']|] eqn:E.
  - intros [= <- <-]. apply (IH b' a'). reflexivity.
  - destruct (Ascii.eqb c c0); [| discriminate]. intros [= <- <-].
    pose proof (cut_last_None c0 s E) as H. clear E IH.
    induction s as [|d s IH]; [reflexivity |].
    cbn [forallb existsb] in *. apply andb_true_iff in H as [Hd Hs].
    rewrite Ascii.eqb_sym. apply negb_true_iff in Hd. rewrite Hd.
    apply IH, Hs.
Qed.

Lemma str_app (a b : list ascii) : str (a ++ b) = str a +:+ str b.
Proof.
  induction a as [|c a IH]; [reflexivity |].
  change (String c (str (a ++ b)) = String c (str a +:+ str b)).
  f_equal. exact IH.
Qed.

(** X9: the extension Dispatch extracts and the path it goes on with
    put the path together again: either the extension is empty and the
    path is untouched, or the extension is not empty, holds no ".",
    and the path is the stripped path, a "." and the extension. *)
Theorem extension_and_stripped_path_rebuild (path : string) :
  split_ext path = ("", path)
  ∨ ∃ ext stripped,
      split_ext path = (ext, stripped)
      ∧ ext ≠ ""
      ∧ has_char "." ext = false
      ∧ path = stripped +:+ "." +:+ ext.
Proof.
  rewrite split_ext_last_dot. unfold last_dot_split.
  destruct (cut_last "." (chars path)) as [[b [|c a]]|] eqn:Hcut;
    [left; reflexivity | | left; reflexivity].
  right. exists (str (c :: a)), (str b).
  destruct (cut_last_Some _ _ _ _ Hcut) as [Hsrc _].
  conjuncts.
  - reflexivity.
  - discriminate.
  - unfold has_char. rewrite list_ascii_of_string_of_list_ascii.
    apply (cut_last_after _ _ _ _ Hcut).
  - rewrite <- (string_of_list_ascii_of_string path), Hsrc, str_app.
    reflexivity.
Qed.

(** X10: ValidExtensions replaces the whitelist, the default empty
    extension included: once the list given does not hold the empty
    string, no path without a "." is dispatched any more, whatever the
    routes and the chunks are. *)
Theorem extension_becomes_mandatory (r : Router) (extensions : list string)
        (method path : string) :
  existsb (String.eqb "") extensions = false →
  has_char "." path = false →
  Dispatch (ValidExtensions r extensions) method path
  = (ValidExtensions r extensions, (None, None)).
Proof.
  intros Hexts Hpath. unfold Dispatch.
  rewrite split_ext_last_dot. unfold last_dot_split.
  rewrite (cut_last_absent "." (chars path) Hpath).
  unfold extensionIsValid, ValidExtensions. cbn [validExtensions set_validExtensions].
  rewrite Hexts. reflexivity.
Qed.

Lemma extension_becomes_mandatory_witness :
  existsb (String.eqb "") ["json"; "csv"] = false
  ∧ has_char "." "/home" = false
  ∧ Dispatch (ValidExtensions (default New home_router) ["json"; "csv"])
      "GET" "/home"
    = (ValidExtensions (default New home_router) ["json"; "csv"], (None, None)).
Proof.
  conjuncts; [reflexivity | reflexivity |].
  apply extension_becomes_mandatory; reflexivity.
Defined.

(** *** The final segment *)

Lemma cut_last_app (c0 : ascii) (p s : list ascii) (b a : list ascii) :
  cut_last c0 s = Some (b, a) → cut_last c0 (p ++ s) = Some (p ++ b, a).
Proof.
  intros H. induction p as [|c p IH]; [exact H |].
  cbn [app cut_last]. rewrite IH. reflexivity.
Qed.

Lemma cut_last_present (c0 : ascii) (s : list ascii) :
  existsb (Ascii.eqb c0) s = true → is_Some (cut_last c0 s).
Proof.
  intros H. destruct (cut_last c0 s) as [x|] eqn:E; [eexists; reflexivity |].
  apply cut_last_None in E.
  exfalso. revert H E. induction s as [|c s IH]; [discriminate |].
  cbn [existsb forallb]. intros H E. apply andb_true_iff in E as [Ec Es].
  apply orb_true_iff in H as [H|H]; [| exact (IH H Es)].
  apply negb_true_iff in Ec. rewrite Ascii.eqb_sym in Ec. congruence.
Qed.

(** Where the final segment of a path holds a ".", and where the path
    holds no "." at all, the extension Dispatch extracts is the
    extension of the final segment: the two part only when the last
    "." of the path lies before its last "/". *)
Lemma extension_of_final_segment (path : string) :
  existsb (Ascii.eqb ".") (final_segment path) = true
  ∨ has_char "." path = false →
  fst (split_ext path) = final_segment_ext path.
Proof.
  rewrite split_ext_last_dot.
  unfold last_dot_split, final_segment_ext, final_segment, has_char.
  intros [Hseg|Hnone].
  - destruct (cut_last "/" (chars path)) as [[d seg]|] eqn:Hslash.
    + destruct (cut_last_present "." seg Hseg) as [[b a] Hdot].
      apply cut_last_Some in Hslash as [Epath _]. rewrite Epath.
      replace (d ++ "/"%char :: seg) with ((d ++ ["/"%char]) ++ seg)
        by (rewrite <- app_assoc; reflexivity).
      rewrite (cut_last_app "." (d ++ ["/"%char]) seg b a Hdot), Hdot.
      destruct a; reflexivity.
    + destruct (cut_last "." (chars path)) as [[b [|c a]]|]; reflexivity.
  - rewrite (cut_last_absent "." (chars path) Hnone).
    destruct (cut_last "/" (chars path)) as [[d seg]|] eqn:Hslash.
    + apply cut_last_Some in Hslash as [Epath _].
      rewrite Epath, existsb_app in Hnone.
      apply orb_false_iff in Hnone as [_ Hn].
      cbn [existsb] in Hn. apply orb_false_iff in Hn as [_ Hn].
      rewrite (cut_last_absent "." seg Hn). reflexivity.
    + rewrite (cut_last_absent "." (chars path) Hnone). reflexivity.
Qed.

(** ** Dispatch before Compile *)

(** X11: routes that are registered and not compiled are not found:
    on a router without chunks, as New gives it, Dispatch finds no
    match after any sequence of calls of Get, for every method and
    path, and leaves the router as it is. *)
Theorem uncompiled_routes_are_not_found (r : Router)
        (l : list (string * string * list Handler)) (method path : string) :
  (∀ k, at_key [] (regexesByMethod r) k = []) →
  Dispatch (register_gets r l) method path = (register_gets r l, (None, None)).
Proof.
  intros Hr.
  assert (E : regexesByMethod (register_gets r l) = regexesByMethod r).
  { clear Hr. revert r. induction l as [|[[n p] hs] l IH]; intros r;
      [reflexivity |].
    cbn [register_gets foldl]. fold (register_gets (fst (Get r n p hs)) l).
    rewrite IH. reflexivity. }
  unfold Dispatch. destruct (split_ext path) as [ext stripped].
  destruct (negb (extensionIsValid (register_gets r l) ext)); [reflexivity |].
  rewrite E, Hr. reflexivity.
Qed.

Lemma uncompiled_routes_are_not_found_witness :
  (∀ k, at_key [] (regexesByMethod New) k = [])
  ∧ Dispatch (register_gets New [("home", "/home", [])]) "GET" "/home"
    = (register_gets New [("home", "/home", [])], (None, None)).
Proof.
  assert (H : ∀ k, at_key [] (regexesByMethod New) k = []).
  { intros k. unfold at_key, New. cbn [regexesByMethod].
    destruct (decide (k = "GET")) as [->|?]; [reflexivity |].
    rewrite lookup_insert_ne by congruence.
    destruct (decide (k = "POST")) as [->|?]; [reflexivity |].
    rewrite lookup_insert_ne by congruence.
    destruct (decide (k = "PUT")) as [->|?]; [reflexivity |].
    rewrite lookup_insert_ne by congruence.
    destruct (decide (k = "DELETE")) as [->|?]; [reflexivity |].
    rewrite lookup_insert_ne by congruence. reflexivity. }
  split; [exact H |].
  exact (uncompiled_routes_are_not_found New [("home", "/home", [])]
           "GET" "/home" H).
Defined.

(** ** More on Compile *)

Lemma div_step_multiple (i : nat) :
  (1 ≤ i)%nat → (i mod 15 = 0)%nat → (i / 15 = (i - 1) / 15 + 1)%nat.
Proof.
  intros Hi Hm.
  pose proof (Nat.div_mod_eq i 15) as E. rewrite Hm in E.
  pose proof (Nat.div_mod_eq (i - 1) 15) as E'.
  pose proof (Nat.mod_upper_bound (i - 1) 15) as B.
  lia.
Qed.

Lemma div_step_other (i : nat) :
  (1 ≤ i)%nat → (i mod 15 ≠ 0)%nat → (i / 15 = (i - 1) / 15)%nat.
Proof.
  intros Hi Hm.
  pose proof (Nat.div_mod_eq i 15) as E.
  pose proof (Nat.mod_upper_bound i 15) as B0.
  pose proof (Nat.div_mod_eq (i - 1) 15) as E'.
  pose proof (Nat.mod_upper_bound (i - 1) 15) as B.
  lia.
Qed.

(** The chunks closed inside the loop, counted from the index [i] on. *)
Lemma compile_loop_count (rs : list Route) :
  ∀ (i : nat) (p : string) (regs : list Regexp.Regexp)
    (p' : string) (regs' : list Regexp.Regexp),
    (1 ≤ i)%nat →
    compile_loop i rs p regs = Some (p', regs') →
    (length regs' + (i - 1) / 15 = length regs + (i + length rs - 1) / 15)%nat.
Proof.
  induction rs as [|route rest IH]; intros i p regs p' regs' Hi H.
  - cbn in H. injection H as <- <-. cbn [length]. rewrite Nat.add_0_r.
    reflexivity.
  - cbn [compile_loop] in H. cbn [length].
    replace (i + S (length rest) - 1)%nat with (S i + length rest - 1)%nat by lia.
    replace (0 <? i)%nat with true in H by (symmetry; apply Nat.ltb_lt; lia).
    cbn [andb] in H. destruct (i mod 15 =? 0)%nat eqn:Hm.
    + apply Nat.eqb_eq in Hm.
      destruct (Regexp.MustCompile _) as [re|]; [| discriminate H].
      cbn [mbind option_bind] in H.
      apply IH in H; [| lia]. rewrite length_app in H. cbn [length] in H.
      replace (S i - 1)%nat with i in H by lia.
      rewrite (div_step_multiple i Hi Hm) in H. lia.
    + apply Nat.eqb_neq in Hm. apply IH in H; [| lia].
      replace (S i - 1)%nat with i in H by lia.
      rewrite (div_step_other i Hi Hm) in H. exact H.
Qed.

(** X12: a call of Compile that returns adds (n - 1) / 15 + 1 chunks to
    the table of a method with n routes, one chunk for a method without
    routes: 1 chunk up to 15 routes, 2 from 16 to 30 routes, 4 for 46. *)
Theorem compile_chunk_count (rs : list Route) (regs chunks : list Regexp.Regexp) :
  compile_method rs regs = Some chunks →
  length chunks = (length regs + S ((length rs - 1) / 15))%nat.
Proof.
  unfold compile_method. intros H.
  destruct (compile_loop 0 rs "" regs) as [[p' regs']|] eqn:Hl;
    [| discriminate H].
  cbn [mbind option_bind] in H.
  destruct (Regexp.MustCompile (wrap p')) as [re|]; [| discriminate H].
  cbn [mbind option_bind] in H. injection H as <-.
  rewrite length_app. cbn [length].
  destruct rs as [|route rest].
  - cbn in Hl. injection Hl as <- <-.
    reflexivity.
  - cbn [compile_loop Nat.ltb Nat.leb andb] in Hl.
    apply compile_loop_count in Hl; [| lia].
    cbn [length]. replace (S (length rest) - 1)%nat with (length rest) by lia.
    replace (1 + length rest - 1)%nat with (length rest) in Hl by lia.
    change ((1 - 1) / 15)%nat with 0%nat in Hl. lia.
Qed.

Lemma compile_chunk_count_witness :
  compile_method (at_key [] (routesByMethod sixteen_routes) "GET") []
  = Some (default [] (compile_method
                        (at_key [] (routesByMethod sixteen_routes) "GET") []))
  ∧ length (default [] (compile_method
                          (at_key [] (routesByMethod sixteen_routes) "GET") []))
    = (length (@nil Regexp.Regexp)
       + S ((length (at_key [] (routesByMethod sixteen_routes) "GET") - 1) / 15))%nat.
Proof.
  assert (H : compile_method (at_key [] (routesByMethod sixteen_routes) "GET") []
              = Some (default [] (compile_method
                        (at_key [] (routesByMethod sixteen_routes) "GET") [])))
    by (vm_compute; reflexivity).
  split; [exact H |].
  exact (compile_chunk_count _ _ _ H).
Defined.

(** X13: a call of Compile that returns changes nothing but chunk
    tables: the fields validExtensions, routes, routesByMethod, matched
    and group are the same, the table of a method that has a route
    list starts with the chunks it had, and the table of a method that
    has no route list is untouched. *)
Theorem compile_touches_chunk_tables_only (r r' : Router) :
  Compile r = Some r' →
  validExtensions r' = validExtensions r
  ∧ routes r' = routes r
  ∧ routesByMethod r' = routesByMethod r
  ∧ matched r' = matched r
  ∧ group r' = group r
  ∧ ∀ k, match routesByMethod r !! k with
         | Some _ =>
             ∃ chunks, regexesByMethod r' !! k
                       = Some (at_key [] (regexesByMethod r) k ++ chunks)
         | None => regexesByMethod r' !! k = regexesByMethod r !! k
         end.
Proof.
  intros H. destruct (Compile_fields r r' H) as (H1 & H2 & H3 & H4 & H5).
  destruct (Compile_Some r r' H) as (_ & Hok & Hlk).
  conjuncts; try assumption.
  intros k. specialize (Hlk k).
  destruct (routesByMethod r !! k) as [rs|] eqn:Hk; [| exact Hlk].
  destruct (Hok k rs Hk) as [chunks Hc]. rewrite Hc in Hlk.
  exists chunks. exact Hlk.
Qed.

Lemma compile_touches_chunk_tables_only_witness :
  Compile home_routes = Some (default New home_router)
  ∧ routes (default New home_router) = routes home_routes.
Proof.
  assert (H : Compile home_routes = Some (default New home_router))
    by (vm_compute; reflexivity).
  split; [exact H |].
  exact (proj1 (proj2 (compile_touches_chunk_tables_only _ _ H))).
Defined.

(** ** Compiling again *)

Lemma params_loop_regexes (X : gmap string (list Regexp.Regexp))
      (names : list string) :
  ∀ (i : nat) (m : list string) (ext : string) (r : Router) (params : params_t),
    params_loop names i m ext (set_regexesByMethod r X) params
    = (set_regexesByMethod (fst (params_loop names i m ext r params)) X,
       snd (params_loop names i m ext r params)).
Proof.
  induction names as [|name names IH]; intros i m ext r params; [reflexivity |].
  cbn [params_loop].
  destruct ((i =? 0)%nat || String.eqb (default "" (m !! i)) "").
  - destruct (size params =? 0)%nat; [apply IH | reflexivity].
  - destruct (size params =? 0)%nat.
    + apply (IH (S i) m ext (set_matched r (FindRoute r name))).
    + destruct (Strconv.Atoi (default "" (m !! i))); apply IH.
Qed.

Lemma chunks_loop_regexes (X : gmap string (list Regexp.Regexp))
      (regs : list Regexp.Regexp) (path ext : string) (r : Router) :
  chunks_loop regs path ext (set_regexesByMethod r X)
  = (set_regexesByMethod (fst (chunks_loop regs path ext r)) X,
     snd (chunks_loop regs path ext r)).
Proof.
  induction regs as [|compiled rest IH]; [reflexivity |].
  cbn [chunks_loop].
  destruct (Regexp.FindStringSubmatch compiled path) as [m|]; [| exact IH].
  rewrite params_loop_regexes.
  destruct (params_loop (Regexp.SubexpNames compiled) 0 m ext r ∅) as [r' ps].
  reflexivity.
Qed.

Lemma chunks_loop_none (regs : list Regexp.Regexp) (path ext : string)
      (r : Router) :
  (∀ c, c ∈ regs → Regexp.FindStringSubmatch c path = None) →
  chunks_loop regs path ext r = (r, (None, None)).
Proof.
  induction regs as [|compiled rest IH]; intros H; [reflexivity |].
  cbn [chunks_loop]. rewrite (H compiled) by left.
  apply IH. intros c Hc. apply H. right. exact Hc.
Qed.

(** The chunks are tried in order: chunks behind one that matches are
    not looked at, and chunks that all occur earlier in the list change
    nothing at its end. *)
Lemma chunks_loop_repeated (regs more : list Regexp.Regexp) (path ext : string)
      (r : Router) :
  (∀ c, c ∈ more → c ∈ regs) →
  chunks_loop (regs ++ more) path ext r = chunks_loop regs path ext r.
Proof.
  intros Hsub.
  assert (H : ∀ l,
             (∀ c, c ∈ l → Regexp.FindStringSubmatch c path = None)
             ∧ chunks_loop (l ++ more) path ext r = chunks_loop more path ext r
             ∧ chunks_loop l path ext r = (r, (None, None))
             ∨ chunks_loop (l ++ more) path ext r = chunks_loop l path ext r
               ∧ ∃ c, c ∈ l ∧ Regexp.FindStringSubmatch c path ≠ None).
  { induction l as [|compiled rest IH].
    - left. conjuncts; [intros c Hc; inversion Hc | reflexivity | reflexivity].
    - cbn [app chunks_loop].
      destruct (Regexp.FindStringSubmatch compiled path) as [m|] eqn:Hm.
      + right. split; [reflexivity |]. exists compiled.
        split; [left | rewrite Hm; discriminate].
      + destruct IH as [(Hn & H1 & H2) | (H1 & c & Hc & Hne)].
        * left. conjuncts; [| exact H1 | exact H2].
          intros c Hc. apply elem_of_cons in Hc as [->|Hc]; [exact Hm |].
          apply Hn, Hc.
        * right. split; [exact H1 |]. exists c. split; [right; exact Hc | exact Hne]. }
  destruct (H regs) as [(Hn & H1 & H2) | (H1 & _)]; [| exact H1].
  rewrite H1, H2. apply chunks_loop_none.
  intros c Hc. apply Hn, Hsub, Hc.
Qed.

(** X14: a second call of Compile with no registration in between,
    which doubles the chunks, changes no result of Dispatch: for every
    method and path, the route and the parameters returned and the
    route left in the matched field are those of the router compiled
    once. *)
Theorem compiling_again_keeps_dispatch (r r1 r2 : Router) (method path : string) :
  Compile r = Some r1 →
  Compile r1 = Some r2 →
  snd (Dispatch r2 method path) = snd (Dispatch r1 method path)
  ∧ matched (fst (Dispatch r2 method path))
    = matched (fst (Dispatch r1 method path)).
Proof.
  intros H1 H2.
  destruct (Compile_Some r r1 H1) as (_ & Hok & Hlk1).
  destruct (Compile_fields r r1 H1) as (_ & _ & Hrbm & _).
  destruct (Compile_Some r1 r2 H2) as (E2 & _ & Hlk2).
  specialize (Hlk1 method). specialize (Hlk2 method). rewrite Hrbm in Hlk2.
  assert (Hrep : ∃ more,
             at_key [] (regexesByMethod r2) method
             = at_key [] (regexesByMethod r1) method ++ more
             ∧ ∀ c, c ∈ more → c ∈ at_key [] (regexesByMethod r1) method).
  { destruct (routesByMethod r !! method) as [rs|] eqn:Hm.
    - destruct (Hok method rs Hm) as [chunks Hc]. rewrite Hc in Hlk1, Hlk2.
      cbn [fmap option_fmap option_map] in Hlk1, Hlk2.
      exists chunks. rewrite (at_key_lookup _ _ _ _ Hlk2). split; [reflexivity |].
      intros c Hcin. rewrite (at_key_lookup _ _ _ _ Hlk1).
      apply elem_of_app. right. exact Hcin.
    - exists []. rewrite app_nil_r. unfold at_key. rewrite Hlk2.
      split; [reflexivity |]. intros c Hc. inversion Hc. }
  destruct Hrep as (more & Etab & Hsub).
  unfold Dispatch. destruct (split_ext path) as [ext stripped].
  rewrite Etab. rewrite E2.
  unfold extensionIsValid. cbn [validExtensions set_regexesByMethod].
  destruct (negb (existsb (String.eqb ext) (validExtensions r1)));
    [split; reflexivity |].
  rewrite !chunks_loop_regexes. cbn [fst snd matched set_regexesByMethod].
  rewrite (chunks_loop_repeated _ _ _ _ _ Hsub). split; reflexivity.
Qed.

Lemma compiling_again_keeps_dispatch_witness :
  Compile home_routes = Some (default New home_router)
  ∧ Compile (default New home_router) = Some (default New home_router_again)
  ∧ snd (Dispatch (default New home_router_again) "GET" "/home")
    = snd (Dispatch (default New home_router) "GET" "/home").
Proof.
  assert (H1 : Compile home_routes = Some (default New home_router))
    by (vm_compute; reflexivity).
  assert (H2 : Compile (default New home_router)
               = Some (default New home_router_again))
    by (vm_compute; reflexivity).
  conjuncts; [exact H1 | exact H2 |].
  exact (proj1 (compiling_again_keeps_dispatch home_routes
                  (default New home_router) (default New home_router_again)
                  "GET" "/home" H1 H2)).
Defined.

(** ** Patterns without placeholders *)

Lemma occurs_without_head (c0 : ascii) (o s : list ascii) :
  existsb (Ascii.eqb c0) s = false → occurs (c0 :: o) s = false.
Proof.
  induction s as [|d s IH]; [reflexivity |]. cbn [existsb occurs Strings.HasPrefix].
  intros H. apply orb_false_iff in H as [Hd Hs]. rewrite Hd, (IH Hs). reflexivity.
Qed.

Lemma search_without_head (c0 : ascii) (X : Regexp.re) (s : list ascii) :
  existsb (Ascii.eqb c0) s = false →
  ∀ pos, Regexp.search (Regexp.Cat (Regexp.Lit c0) X) pos s = None.
Proof.
  induction s as [|d s IH]; intros H pos; [reflexivity |].
  cbn [existsb] in H. apply orb_false_iff in H as [Hd Hs].
  cbn [Regexp.search Regexp.run Regexp.step1]. rewrite Hd. apply IH, Hs.
Qed.

Lemma ReplaceAllString_no_match (re : Regexp.Regexp) (src repl : string) :
  Regexp.search (Regexp.prog re) 0 (chars src) = None →
  Regexp.ReplaceAllString re src repl = src.
Proof.
  intros H. unfold Regexp.ReplaceAllString, Regexp.replaceAll.
  rewrite Nat.add_1_r, replace_loop_done by (rewrite drop_0; exact H).
  rewrite drop_0. apply string_of_list_ascii_of_string.
Qed.

Lemma named_starts_with_colon :
  ∃ X, Regexp.prog named = Regexp.Cat (Regexp.Lit ":") X.
Proof. eexists. vm_compute. reflexivity. Qed.

Lemma namedRegex_starts_with_colon :
  ∃ X, Regexp.prog namedRegex = Regexp.Cat (Regexp.Lit ":") X.
Proof. eexists. vm_compute. reflexivity. Qed.

(** X15: a pattern that holds neither ":" nor "(" is taken as it is:
    the route newRoute makes of it has the pattern itself as its match
    pattern and as its base pattern, the method in upper case, and the
    name and the handlers given. *)
Theorem plain_pattern_is_kept (method name pattern : string)
        (handlers : list Handler) :
  has_char ":" pattern = false →
  has_char "(" pattern = false →
  newRoute method name pattern handlers
  = mkRoute (Strings.ToUpper method) name pattern pattern handlers.
Proof.
  intros Hcolon Hparen. unfold newRoute, has_char in *.
  assert (Halias : ∀ old new, old ≠ "" → Strings.HasPrefix (chars old) ["("%char] = true →
                              Strings.Replace pattern old new (-1) = pattern).
  { intros old new Hne Hp. apply Replace_absent; [exact Hne |].
    destruct (chars old) as [|c o]; [discriminate Hp |].
    cbn [Strings.HasPrefix] in Hp.
    destruct (Ascii.eqb_spec "(" c) as [<-|]; [| discriminate Hp].
    apply occurs_without_head. exact Hparen. }
  rewrite (Halias "(int)") by (discriminate || reflexivity).
  rewrite (Halias "(alpha)") by (discriminate || reflexivity).
  rewrite (Halias "(alphanumeric)") by (discriminate || reflexivity).
  rewrite (Halias "(slug)") by (discriminate || reflexivity).
  rewrite (Halias "(mongo)") by (discriminate || reflexivity).
  rewrite (Halias "(md5)") by (discriminate || reflexivity).
  destruct named_starts_with_colon as [X1 E1].
  destruct namedRegex_starts_with_colon as [X2 E2].
  unfold Regexp.MatchString.
  rewrite !ReplaceAllString_no_match
    by (rewrite ?E1, ?E2; apply search_without_head; exact Hcolon).
  rewrite E2, search_without_head by exact Hcolon.
  reflexivity.
Qed.

Lemma plain_pattern_is_kept_witness :
  has_char ":" "/articles" = false
  ∧ has_char "(" "/articles" = false
  ∧ newRoute "post" "articles_create" "/articles" []
    = mkRoute (Strings.ToUpper "post") "articles_create" "/articles" "/articles" [].
Proof.
  conjuncts; [reflexivity | reflexivity |].
  apply plain_pattern_is_kept; reflexivity.
Defined.

(** ** ServeHTTP *)


(** X16: ServeHTTP has no answer for a request that matches no route:
    whenever Dispatch returns no route for the method and the path of
    the request (no chunk matches, the extension is not valid, the
    router is not compiled), ServeHTTP panics. *)
Theorem serve_panics_without_route (r : Router) (method path : string) :
  fst (snd (Dispatch r method path)) = None →
  snd (ServeHTTP r method path) = None.
Proof.
  unfold ServeHTTP. destruct (Dispatch r method path) as [r' [route ps]].
  cbn [fst snd]. intros ->. reflexivity.
Qed.

Lemma serve_panics_without_route_witness :
  fst (snd (Dispatch (default New home_router) "GET" "/nowhere")) = None
  ∧ snd (ServeHTTP (default New home_router) "GET" "/nowhere") = None.
Proof.
  assert (H : fst (snd (Dispatch (default New home_router) "GET" "/nowhere")) = None)
    by (vm_compute; reflexivity).
  split; [exact H |].
  exact (serve_panics_without_route _ _ _ H).
Defined.



(** X18: for a request that Dispatch matches to a route created by
    Post, Put or Delete, ServeHTTP panics, whatever handlers the route
    was registered with: the one handler of such a route is the slice
    of the handlers given, which cannot be called. *)
Theorem serve_panics_on_wrapped_handlers (r r0 : Router) (method path : string)
        (route : Route) (name pattern : string) (hs : list Handler) :
  fst (snd (Dispatch r method path)) = Some route →
  route = snd (Post r0 name pattern hs)
  ∨ route = snd (Put r0 name pattern hs)
  ∨ route = snd (Delete r0 name pattern hs) →
  snd (ServeHTTP r method path) = None.
Proof.
  unfold ServeHTTP. destruct (Dispatch r method path) as [r' [rt ps]].
  cbn [fst snd]. intros -> Hroute. cbn [snd].
  assert (Hh : Handlers route = [ISlice hs]).
  { destruct Hroute as [-> | [-> | ->]]; unfold Post, Put, Delete;
      rewrite addRoute_route; apply newRoute_Handlers. }
  rewrite Hh. reflexivity.
Qed.

Lemma serve_panics_on_wrapped_handlers_witness :
  fst (snd (Dispatch (default New posted_router) "POST" "/articles"))
  = Some (snd (Post New "create" "/articles" [IFunc 1]))
  ∧ snd (ServeHTTP (default New posted_router) "POST" "/articles") = None.
Proof.
  assert (H : fst (snd (Dispatch (default New posted_router) "POST" "/articles"))
              = Some (snd (Post New "create" "/articles" [IFunc 1])))
    by (vm_compute; reflexivity).
  split; [exact H |].
  exact (serve_panics_on_wrapped_handlers _ New _ _ _ "create" "/articles"
           [IFunc 1] H (or_introl eq_refl)).
Defined.

(** ** The values of parameters *)





(** ** Filling a placeholder *)

Lemma replace_from_skip (old new a : list ascii) (n : Z) :
  ∀ s, Strings.replace_from old new n (length a) (a ++ s)
       = Strings.replace_from old new n 0 s.
Proof.
  induction a as [|c a IH]; intros s; [reflexivity |].
  cbn [length app Strings.replace_from]. apply IH.
Qed.

Lemma HasPrefix_app (old s : list ascii) : Strings.HasPrefix (old ++ s) old = true.
Proof.
  induction old as [|c old IH]; [destruct s; reflexivity |].
  cbn [app Strings.HasPrefix]. rewrite Ascii.eqb_refl. exact IH.
Qed.

Lemma replace_from_cons (old new : list ascii) (n : Z) (c : ascii)
      (s : list ascii) :
  Strings.replace_from old new n 0 (c :: s)
  = if (n =? 0)%Z then c :: s
    else if Strings.HasPrefix (c :: s) old
         then new ++ Strings.replace_from old new (n - 1) (length old - 1) s
         else c :: Strings.replace_from old new n 0 s.
Proof. reflexivity. Qed.

(** Replace-all at the one occurrence of [c0 :: o] in a text whose
    other parts hold no [c0]. *)
Lemma replace_from_once (c0 : ascii) (o new a s : list ascii) :
  existsb (Ascii.eqb c0) a = false →
  existsb (Ascii.eqb c0) s = false →
  Strings.replace_from (c0 :: o) new (-1) 0 (a ++ (c0 :: o) ++ s)
  = a ++ new ++ s.
Proof.
  intros Ha Hs. induction a as [|d a IH].
  - change ([] ++ (c0 :: o) ++ s) with (c0 :: (o ++ s)).
    rewrite replace_from_cons. change (-1 =? 0)%Z with false. cbv iota.
    change (c0 :: o ++ s) with ((c0 :: o) ++ s). rewrite HasPrefix_app.
    cbn [length Nat.sub]. rewrite Nat.sub_0_r, replace_from_skip.
    rewrite replace_from_absent by (apply occurs_without_head; exact Hs).
    reflexivity.
  - cbn [existsb] in Ha. apply orb_false_iff in Ha as [Hd Ha].
    change ((d :: a) ++ (c0 :: o) ++ s) with (d :: (a ++ (c0 :: o) ++ s)).
    rewrite replace_from_cons. change (-1 =? 0)%Z with false. cbv iota.
    cbn [Strings.HasPrefix]. rewrite Hd, (IH Ha). reflexivity.
Qed.

(** X20: in a URL template with one placeholder, where neither the
    text before the placeholder nor the text behind it holds a ":", a
    pair of Route.URL for that placeholder puts the text of its value
    (the decimal digits of an integer, a string as it is) in the place
    of the placeholder and leaves the rest of the template as it is. *)
Theorem url_fills_the_placeholder (before name after : string) (value : iface)
        (text : string) :
  has_char ":" before = false →
  has_char ":" after = false →
  value_text value = Some text →
  Route_URL_loop (before +:+ ":" +:+ name +:+ after) [IString name; value]
  = Some (before +:+ text +:+ after).
Proof.
  unfold has_char. intros Hb Ha Hv. cbn [Route_URL_loop].
  assert (E : Strings.Replace (before +:+ ":" +:+ name +:+ after)
                (":" +:+ name) text (-1)
              = before +:+ text +:+ after).
  { unfold Strings.Replace.
    change (chars (":" +:+ name)) with (":"%char :: chars name).
    rewrite (chars_app before), (chars_app ":"), (chars_app name).
    change (chars ":") with [":"%char].
    change ([":"%char] ++ chars name ++ chars after)
      with ((":"%char :: chars name) ++ chars after).
    rewrite (replace_from_once ":" (chars name) (chars text) _ _ Hb Ha).
    rewrite !str_app, !string_of_list_ascii_of_string. reflexivity. }
  destruct value; cbn [value_text] in Hv; try discriminate Hv;
    injection Hv as <-; rewrite E; reflexivity.
Qed.

Lemma url_fills_the_placeholder_witness :
  has_char ":" "/articles/" = false
  ∧ has_char ":" "/edit" = false
  ∧ value_text (IInt 10) = Some "10"
  ∧ Route_URL_loop ("/articles/" +:+ ":" +:+ "id" +:+ "/edit") [IString "id"; IInt 10]
    = Some ("/articles/" +:+ "10" +:+ "/edit").
Proof.
  conjuncts; [reflexivity | reflexivity | reflexivity |].
  apply url_fills_the_placeholder; reflexivity.
Defined.

(** ** Bare placeholders *)

Section Repetition.

Import Regexp.

Variables (neg : bool) (rs : list (ascii * ascii)).

(** A repetition of a class in front of a continuation that fails on
    every text without [c0] fails on such a text. *)
Lemma rep_loop_dead (c0 : ascii) (g : bool) (mn : nat) (mx : option nat)
      (k : kont) :
  (∀ p s cs, existsb (Ascii.eqb c0) s = false → k p s cs = None) →
  ∀ (fuel cnt p : nat) (s : list ascii) (cs : caps),
    existsb (Ascii.eqb c0) s = false →
    rep_loop (run (Class neg rs)) g mn mx k fuel cnt p s cs = None.
Proof.
  intros Hk. induction fuel as [|fuel IH]; intros cnt p s cs Hs.
  - rewrite rep_loop_O, (Hk p s cs Hs). destruct (mn <=? cnt)%nat; reflexivity.
  - rewrite rep_loop_S. cbv zeta. rewrite (Hk p s cs Hs).
    assert (Hmore : (if below cnt mx
                     then run (Class neg rs) p s cs
                            (λ p1 s1 c1,
                               if (cnt <? mn)%nat || (p <? p1)%nat
                               then rep_loop (run (Class neg rs)) g mn mx k
                                      fuel (S cnt) p1 s1 c1
                               else None)
                     else None) = None).
    { destruct (below cnt mx); [| reflexivity].
      destruct s as [|c s']; [reflexivity |].
      cbn [existsb] in Hs. apply orb_false_iff in Hs as [_ Hs'].
      change (run (Class neg rs) p (c :: s') cs)
        with (step1 (in_class neg rs) p (c :: s') cs). cbn [step1].
      destruct (in_class neg rs c); [| reflexivity].
      destruct ((cnt <? mn)%nat || (p <? S p)%nat); [| reflexivity].
      apply IH, Hs'. }
    rewrite Hmore. destruct g; destruct (mn <=? cnt)%nat; reflexivity.
Qed.

(** A greedy repetition of a class takes all the bytes of the class
    that the text starts with, if the continuation accepts what is
    left. *)
Lemma rep_loop_takes_all (mn : nat) (k : kont) (rest : list ascii) (x : caps) :
  match rest with [] => true | c :: _ => negb (in_class neg rs c) end = true →
  ∀ (w : list ascii) (fuel cnt p : nat) (cs : caps),
    forallb (in_class neg rs) w = true →
    (mn ≤ cnt + length w)%nat →
    (length w ≤ fuel)%nat →
    k (p + length w)%nat rest cs = Some x →
    rep_loop (run (Class neg rs)) true mn None k fuel cnt p (w ++ rest) cs
    = Some x.
Proof.
  intros Hrest. induction w as [|c w IH]; intros fuel cnt p cs Hw Hmn Hfuel Hk.
  - cbn [app length] in *. rewrite Nat.add_0_r in Hk, Hmn.
    assert (Hstop : (mn <=? cnt)%nat = true) by (apply Nat.leb_le; exact Hmn).
    destruct fuel as [|fuel]; [rewrite rep_loop_O, Hstop; exact Hk |].
    rewrite rep_loop_S. cbv zeta. cbn [below].
    change (run (Class neg rs) p rest cs)
      with (step1 (in_class neg rs) p rest cs).
    destruct rest as [|c rest']; cbn [step1]; [rewrite Hstop; exact Hk |].
    apply negb_true_iff in Hrest. rewrite Hrest, Hstop. exact Hk.
  - destruct fuel as [|fuel]; [cbn in Hfuel; lia |].
    cbn [forallb] in Hw. apply andb_true_iff in Hw as [Hc Hw].
    rewrite rep_loop_S. cbv zeta. cbn [below app].
    change (run (Class neg rs) p (c :: w ++ rest) cs)
      with (step1 (in_class neg rs) p (c :: w ++ rest) cs).
    cbn [step1]. rewrite Hc.
    replace (p <? S p)%nat with true by (symmetry; apply Nat.ltb_lt; lia).
    rewrite orb_true_r.
    rewrite (IH fuel (S cnt) (S p) cs Hw); [reflexivity | | |];
      cbn [length] in *; try lia.
    replace (S p + length w)%nat with (p + S (length w))%nat by lia. exact Hk.
Qed.

End Repetition.

Section Placeholders.

Import Regexp.

Lemma namedRegex_prog :
  ∃ W Y, prog namedRegex
         = Cat (Lit ":") (Cat (Cap 1 (Rep true 1 None (Class false W)))
                            (Cat (Lit "(") Y)).
Proof. eexists. eexists. vm_compute. reflexivity. Qed.

Lemma named_prog :
  prog named
  = Cat (Lit ":")
      (Cap 1 (Rep true 1 None
                (Class false
                   [("a"%char, "z"%char); ("A"%char, "Z"%char);
                    ("0"%char, "9"%char); ("_"%char, "_"%char)]))).
Proof. vm_compute. reflexivity. Qed.

(** The pattern of a constrained placeholder matches nowhere in a text
    without "(". *)
Lemma namedRegex_needs_paren (s : list ascii) :
  existsb (Ascii.eqb "(") s = false →
  ∀ pos, search (prog namedRegex) pos s = None.
Proof.
  destruct namedRegex_prog as (W & Y & ->).
  assert (Hrun : ∀ s pos k, existsb (Ascii.eqb "(") s = false →
                            run (Cat (Lit ":")
                                   (Cat (Cap 1 (Rep true 1 None (Class false W)))
                                      (Cat (Lit "(") Y))) pos s [] k = None).
  { intros t pos k Ht. cbn [run]. destruct t as [|c t]; [reflexivity |].
    cbn [step1]. destruct (Ascii.eqb ":" c); [| reflexivity].
    cbn [existsb] in Ht. apply orb_false_iff in Ht as [_ Ht].
    apply (rep_loop_dead false W "("); [| exact Ht].
    intros p u cs Hu. destruct u as [|d u]; [reflexivity |].
    cbn [step1]. cbn [existsb] in Hu. apply orb_false_iff in Hu as [Hd _].
    rewrite Hd. reflexivity. }
  induction s as [|c s IH]; intros Hs pos.
  - cbn [search]. rewrite Hrun by reflexivity. reflexivity.
  - cbn [search]. rewrite Hrun by exact Hs.
    cbn [existsb] in Hs. apply orb_false_iff in Hs as [_ Hs]. apply IH, Hs.
Qed.

(** The leftmost match of a pattern that starts with a literal is not
    in front of the first occurrence of the literal. *)
Lemma search_skips (c0 : ascii) (X : re) (a : list ascii) :
  existsb (Ascii.eqb c0) a = false →
  ∀ s pos, search (Cat (Lit c0) X) pos (a ++ s)
           = search (Cat (Lit c0) X) (pos + length a) s.
Proof.
  induction a as [|d a IH]; intros Ha s pos.
  - cbn [app length]. rewrite Nat.add_0_r. reflexivity.
  - cbn [existsb] in Ha. apply orb_false_iff in Ha as [Hd Ha].
    cbn [app search run step1 length]. rewrite Hd, (IH Ha).
    f_equal. lia.
Qed.

(** The pattern of a bare placeholder at a ":" and a name that the text
    does not run into. *)
Lemma named_at_placeholder (w rest : list ascii) (pos : nat) :
  w ≠ [] → forallb name_char w = true → apart rest = true →
  search (prog named) pos (":"%char :: w ++ rest)
  = Some [(0%nat, (pos, S pos + length w)%nat);
          (1%nat, (S pos, S pos + length w)%nat)].
Proof.
  intros Hne Hw Hrest. rewrite named_prog. cbn [search run step1].
  change (Ascii.eqb ":" ":") with true. cbv iota.
  assert (Hrun : rep_loop (run (Class false
                    [("a"%char, "z"%char); ("A"%char, "Z"%char);
                     ("0"%char, "9"%char); ("_"%char, "_"%char)]))
                   true 1 None
                   (λ p1 s1 c1, Some ((0%nat, (pos, p1)) :: (1%nat, (S pos, p1)) :: c1))
                   (1 + length (w ++ rest) + 1) 0 (S pos) (w ++ rest) []
                 = Some [(0%nat, (pos, S pos + length w)%nat);
                         (1%nat, (S pos, S pos + length w)%nat)]).
  { apply (rep_loop_takes_all false _ 1 _ rest _ Hrest w); [exact Hw | | | reflexivity].
    - destruct w; [contradiction | cbn [length]; lia].
    - rewrite length_app. lia. }
  etransitivity; [| exact Hrun].
  match goal with |- match ?a with _ => _ end = ?b => change a with b end.
  rewrite Hrun. reflexivity.
Qed.

End Placeholders.

Section Pieces.

Import Regexp.

Lemma expand_group_template (names : list string) (src : list ascii) (cs : caps) :
  expand 14 names src cs (chars "(?P<$1>[^/]+)")
  = chars "(?P<" ++ group_text src cs 1 ++ chars ">[^/]+)".
Proof. reflexivity. Qed.

Lemma chars_with_placeholders (n seg : string) (l : list (string * string)) :
  chars (with_placeholders ((n, seg) :: l))
  = ":"%char :: chars n ++ chars seg ++ chars (with_placeholders l).
Proof.
  cbn [with_placeholders]. rewrite (chars_app ":"), (chars_app n), (chars_app seg).
  reflexivity.
Qed.

Lemma chars_with_groups (n seg : string) (l : list (string * string)) :
  chars (with_groups ((n, seg) :: l))
  = chars "(?P<" ++ chars n ++ chars ">[^/]+)" ++ chars seg
    ++ chars (with_groups l).
Proof.
  cbn [with_groups].
  rewrite (chars_app "(?P<"), (chars_app n), (chars_app ">[^/]+)"), (chars_app seg).
  reflexivity.
Qed.

Lemma apart_behind_name (seg : string) (l : list (string * string)) :
  apart (chars seg) = true →
  apart (chars seg ++ chars (with_placeholders l)) = true.
Proof.
  destruct (chars seg) as [|c s]; [| intros H; exact H]. intros _.
  destruct l as [|[n seg'] l]; [reflexivity |].
  rewrite chars_with_placeholders. reflexivity.
Qed.

Lemma named_behind_text (a w rest : list ascii) (pos : nat) :
  existsb (Ascii.eqb ":") a = false →
  w ≠ [] → forallb name_char w = true → apart rest = true →
  search (prog named) pos (a ++ ":"%char :: w ++ rest)
  = Some [(0%nat, (pos + length a, S (pos + length a) + length w)%nat);
          (1%nat, (S (pos + length a), S (pos + length a) + length w)%nat)].
Proof.
  intros Ha Hne Hw Hrest.
  pose proof (named_at_placeholder w rest (pos + length a) Hne Hw Hrest) as H.
  rewrite named_prog in *. rewrite search_skips by exact Ha. exact H.
Qed.

Lemma named_without_colon (s : list ascii) (pos : nat) :
  existsb (Ascii.eqb ":") s = false → search (prog named) pos s = None.
Proof. intros H. rewrite named_prog. apply search_without_head, H. Qed.

Variable src : list ascii.

(** The replacement loop of newRoute for bare placeholders, from the
    end of the text [done] that is dealt with. *)
Lemma replace_pieces (l : list (string * string)) :
  ∀ (done seg buf : list ascii) (fuel : nat),
    src = done ++ seg ++ chars (with_placeholders l) →
    existsb (Ascii.eqb ":") seg = false →
    forallb piece_ok l = true →
    (length l < fuel)%nat →
    replace_loop fuel (prog named) src
      (λ cs, expand 14 (subexpNames named) src cs (chars "(?P<$1>[^/]+)"))
      (length done) (length done) buf
    = buf ++ seg ++ chars (with_groups l).
Proof.
  induction l as [|[n seg'] l IH]; intros done seg buf fuel Hsrc Hseg Hl Hfuel.
  - destruct fuel as [|fuel]; [cbn in Hfuel; lia |].
    cbn [with_placeholders with_groups] in *. change (chars "") with (@nil ascii) in *.
    rewrite app_nil_r in *.
    rewrite replace_loop_done; rewrite Hsrc, drop_app_length;
      [reflexivity | apply named_without_colon, Hseg].
  - destruct fuel as [|fuel]; [cbn in Hfuel; lia |].
    cbn [forallb] in Hl. apply andb_true_iff in Hl as [Hp Hl].
    unfold piece_ok in Hp. cbn [fst snd] in Hp.
    apply andb_true_iff in Hp as [Hp Hapart].
    apply andb_true_iff in Hp as [Hp Hplain].
    apply andb_true_iff in Hp as [Hne Hname].
    apply negb_true_iff, String.eqb_neq in Hne.
    unfold plain, has_char in Hplain.
    apply andb_true_iff in Hplain as [Hcolon _].
    apply negb_true_iff in Hcolon.
    rewrite chars_with_placeholders in Hsrc.
    assert (Hn : chars n ≠ []).
    { intros E. apply Hne. rewrite <- (string_of_list_ascii_of_string n), E.
      reflexivity. }
    set (a0 := (length done + length seg)%nat).
    set (a1 := (S a0 + length (chars n))%nat).
    assert (Hsearch : search (prog named) (length done) (drop (length done) src)
                      = Some [(0%nat, (a0, a1)); (1%nat, (S a0, a1))]).
    { rewrite Hsrc, drop_app_length.
      apply named_behind_text; [exact Hseg | exact Hn | exact Hname |].
      apply apart_behind_name, Hapart. }
    rewrite (replace_loop_match fuel (prog named) src _ (length done)
               (length done) buf [(0%nat, (a0, a1)); (1%nat, (S a0, a1))] a0 a1);
      [| rewrite Hsrc, length_app; lia | exact Hsearch | reflexivity
       | subst a0 a1; lia | subst a0 a1; lia].
    rewrite expand_group_template.
    assert (Hslice : slice (length done) a0 src = seg).
    { unfold slice. subst a0.
      replace (length done + length seg - length done)%nat with (length seg) by lia.
      rewrite Hsrc, drop_app_length. apply take_app_length. }
    assert (Hgroup : group_text src [(0%nat, (a0, a1)); (1%nat, (S a0, a1))] 1
                     = chars n).
    { unfold group_text, slice. cbn [cap_lookup Nat.eqb]. subst a1.
      replace (S a0 + length (chars n) - S a0)%nat with (length (chars n)) by lia.
      rewrite Hsrc.
      replace (done ++ seg ++ ":"%char :: chars n ++ chars seg'
                 ++ chars (with_placeholders l))
        with ((done ++ seg ++ [":"%char])
                ++ chars n ++ chars seg' ++ chars (with_placeholders l))
        by (rewrite <- !app_assoc; reflexivity).
      replace (S a0) with (length (done ++ seg ++ [":"%char]))
        by (rewrite !length_app; cbn [length]; subst a0; lia).
      rewrite drop_app_length. apply take_app_length. }
    rewrite Hslice, Hgroup.
    replace a1 with (length (done ++ seg ++ ":"%char :: chars n))
      by (rewrite !length_app; cbn [length]; subst a0 a1; lia).
    rewrite (IH (done ++ seg ++ ":"%char :: chars n) (chars seg'));
      [| rewrite Hsrc, <- !app_assoc; reflexivity | exact Hcolon | exact Hl
       | cbn [length] in Hfuel; lia].
    rewrite chars_with_groups, <- !app_assoc. reflexivity.
Qed.

End Pieces.

Lemma name_char_not_paren (w : list ascii) :
  forallb name_char w = true → existsb (Ascii.eqb "(") w = false.
Proof.
  induction w as [|c w IH]; [reflexivity |]. cbn [forallb existsb].
  intros H. apply andb_true_iff in H as [Hc Hw]. rewrite (IH Hw), orb_false_r.
  destruct (Ascii.eqb_spec "(" c) as [<-|]; [discriminate Hc | reflexivity].
Qed.

Lemma pieces_without_paren (l : list (string * string)) :
  forallb piece_ok l = true →
  existsb (Ascii.eqb "(") (chars (with_placeholders l)) = false.
Proof.
  induction l as [|[n seg] l IH]; [reflexivity |]. cbn [forallb].
  intros H. apply andb_true_iff in H as [Hp Hl].
  unfold piece_ok in Hp. cbn [fst snd] in Hp.
  apply andb_true_iff in Hp as [Hp _].
  apply andb_true_iff in Hp as [Hp Hplain].
  apply andb_true_iff in Hp as [_ Hname].
  unfold plain, has_char in Hplain. apply andb_true_iff in Hplain as [_ Hparen].
  apply negb_true_iff in Hparen.
  rewrite chars_with_placeholders. cbn [existsb].
  change (Ascii.eqb "(" ":") with false. cbn [orb].
  rewrite !existsb_app, (name_char_not_paren _ Hname), Hparen, (IH Hl).
  reflexivity.
Qed.

Lemma pieces_length (l : list (string * string)) :
  (length l ≤ length (chars (with_placeholders l)))%nat.
Proof.
  induction l as [|[n seg] l IH]; [cbn; lia |].
  rewrite chars_with_placeholders. cbn [length]. rewrite !length_app. lia.
Qed.

(** X21: a pattern made of a plain text (no ":", no "(") and of bare
    placeholders, each a ":" with a name of letters, digits and "_"
    that is not empty, followed by a plain text that does not go on
    with such a byte, becomes the match pattern in which every
    placeholder :name is the named group (?P<name>[^/]+) and every
    text is kept; the base pattern is the pattern itself. *)
Theorem bare_placeholders_become_groups (method name seg0 : string)
        (l : list (string * string)) (handlers : list Handler) :
  plain seg0 = true →
  forallb piece_ok l = true →
  newRoute method name (seg0 +:+ with_placeholders l) handlers
  = mkRoute (Strings.ToUpper method) name (seg0 +:+ with_groups l)
      (seg0 +:+ with_placeholders l) handlers.
Proof.
  intros Hseg0 Hl. unfold plain, has_char in Hseg0.
  apply andb_true_iff in Hseg0 as [Hcolon Hparen0].
  apply negb_true_iff in Hcolon. apply negb_true_iff in Hparen0.
  assert (Hparen : existsb (Ascii.eqb "(")
                     (chars (seg0 +:+ with_placeholders l)) = false).
  { rewrite chars_app, existsb_app, Hparen0, (pieces_without_paren l Hl).
    reflexivity. }
  unfold newRoute.
  assert (Halias : ∀ old new, old ≠ "" →
                     Strings.HasPrefix (chars old) ["("%char] = true →
                     Strings.Replace (seg0 +:+ with_placeholders l) old new (-1)
                     = seg0 +:+ with_placeholders l).
  { intros old new Hne Hp. apply Replace_absent; [exact Hne |].
    destruct (chars old) as [|c o]; [discriminate Hp |].
    cbn [Strings.HasPrefix] in Hp.
    destruct (Ascii.eqb_spec "(" c) as [<-|]; [| discriminate Hp].
    apply occurs_without_head. exact Hparen. }
  rewrite (Halias "(int)") by (discriminate || reflexivity).
  rewrite (Halias "(alpha)") by (discriminate || reflexivity).
  rewrite (Halias "(alphanumeric)") by (discriminate || reflexivity).
  rewrite (Halias "(slug)") by (discriminate || reflexivity).
  rewrite (Halias "(mongo)") by (discriminate || reflexivity).
  rewrite (Halias "(md5)") by (discriminate || reflexivity).
  unfold Regexp.MatchString.
  rewrite (namedRegex_needs_paren _ Hparen 0).
  rewrite (ReplaceAllString_no_match namedRegex)
    by (apply namedRegex_needs_paren; exact Hparen).
  f_equal.
  unfold Regexp.ReplaceAllString, Regexp.replaceAll.
  change (length (chars "(?P<$1>[^/]+)") + 1)%nat with 14%nat.
  rewrite (replace_pieces (chars (seg0 +:+ with_placeholders l)) l [] (chars seg0) []).
  - cbn [app]. rewrite str_app, !string_of_list_ascii_of_string. reflexivity.
  - cbn [app]. apply chars_app.
  - exact Hcolon.
  - exact Hl.
  - rewrite chars_app, length_app. pose proof (pieces_length l). lia.
Qed.

Lemma bare_placeholders_become_groups_witness :
  plain "/articles/" = true
  ∧ forallb piece_ok [("channel", "/"); ("id", "/"); ("slug", "")] = true
  ∧ newRoute "GET" "articles_read"
      ("/articles/" +:+ with_placeholders [("channel", "/"); ("id", "/"); ("slug", "")])
      []
    = mkRoute (Strings.ToUpper "GET") "articles_read"
        ("/articles/" +:+ with_groups [("channel", "/"); ("id", "/"); ("slug", "")])
        ("/articles/" +:+ with_placeholders [("channel", "/"); ("id", "/"); ("slug", "")])
        [].
Proof.
  conjuncts; [reflexivity | reflexivity |].
  apply bare_placeholders_become_groups; reflexivity.
Defined.

(** ** One plain route, end to end *)

Section PlainParse.

Import Regexp.

Ltac each_byte c :=
  destruct c as [[] [] [] [] [] [] [] []]; try discriminate; try reflexivity.

Lemma name_char_is_word (c : ascii) : name_char c = true → is_word c = true.
Proof. each_byte c. Qed.

Lemma name_char_is_path_char (c : ascii) : name_char c = true → path_char c = true.
Proof. unfold path_char. intros ->. reflexivity. Qed.

Lemma pAtom_path_char (f : nat) (c : ascii) (s : list ascii) (st : pst) :
  path_char c = true → pAtom (S f) (c :: s) st = Some (Lit c, s, st).
Proof. each_byte c. Qed.

Lemma quantifier_path_char (c : ascii) (s : list ascii) :
  path_char c = true → quantifier (c :: s) = None.
Proof. each_byte c. Qed.

Lemma pCat_path_char (f : nat) (c : ascii) (s : list ascii) (st : pst) :
  path_char c = true →
  pCat (S f) (c :: s) st
  = '(a, s1, st1) ← pAtom f (c :: s) st;
    '(a', s2) ← repeat a s1;
    '(b, s3, st2) ← pCat f s2 st1;
    Some (cat a' b, s3, st2).
Proof. each_byte c. Qed.

Lemma pCat_lits (w : list ascii) (rest : list ascii) :
  forallb path_char w = true →
  ∀ (f : nat) (st : pst),
    (length w + 2 ≤ f)%nat →
    pCat f (w ++ ")"%char :: rest) st = Some (lits w, ")"%char :: rest, st).
Proof.
  induction w as [|c w IH]; intros Hw f st Hf.
  - destruct f as [|f]; [lia |]. reflexivity.
  - cbn [forallb] in Hw. apply andb_true_iff in Hw as [Hc Hw].
    destruct f as [|[|f]]; [cbn [length] in Hf; lia | cbn [length] in Hf; lia |].
    cbn [app]. rewrite (pCat_path_char _ c _ st Hc), (pAtom_path_char f c _ st Hc).
    cbn [mbind option_bind].
    assert (Hq : quantifier (w ++ ")"%char :: rest) = None).
    { destruct w as [|d w]; [reflexivity |].
      cbn [forallb] in Hw. apply andb_true_iff in Hw as [Hd _].
      apply (quantifier_path_char d), Hd. }
    unfold repeat. rewrite Hq. cbn [mbind option_bind].
    rewrite (IH Hw (S f) st) by (cbn [length] in Hf; lia).
    reflexivity.
Qed.

Lemma span_word_name (n rest : list ascii) :
  forallb name_char n = true →
  match rest with [] => true | c :: _ => negb (is_word c) end = true →
  span_word (n ++ rest) = (n, rest).
Proof.
  intros Hn Hrest. induction n as [|c n IH].
  - destruct rest as [|d rest]; [reflexivity |]. cbn [app span_word].
    apply negb_true_iff in Hrest. rewrite Hrest. reflexivity.
  - cbn [forallb] in Hn. apply andb_true_iff in Hn as [Hc Hn].
    cbn [app span_word]. rewrite (name_char_is_word c Hc), (IH Hn). reflexivity.
Qed.

(** The group in front of an alternative of a chunk. *)
Lemma pAtom_sentinel (f : nat) (n rest : list ascii) (st : pst) :
  n ≠ [] → forallb name_char n = true →
  pAtom (S (S (S (S f))))
    ("("%char :: "?"%char :: "P"%char :: "<"%char
       :: n ++ ">"%char :: "/"%char :: ")"%char :: rest) st
  = Some (Cap (S (fst st)) (Lit "/"), rest, (S (fst st), str n :: snd st)).
Proof.
  intros Hne Hn. cbn [pAtom]. rewrite (span_word_name n _ Hn) by reflexivity.
  destruct n as [|c n]; [contradiction |]. reflexivity.
Qed.

(** The equations of the parser at the bytes of a chunk. *)
Lemma pAlt_S (f : nat) (s : list ascii) (st : pst) :
  pAlt (S f) s st
  = '(a, s1, st1) ← pCat f s st;
    match s1 with
    | "|"%char :: s2 => '(b, s3, st2) ← pAlt f s2 st1; Some (Alt a b, s3, st2)
    | _ => Some (a, s1, st1)
    end.
Proof. reflexivity. Qed.

Lemma pCat_open (f : nat) (s : list ascii) (st : pst) :
  pCat (S f) ("("%char :: s) st
  = '(a, s1, st1) ← pAtom f ("("%char :: s) st;
    '(a', s2) ← repeat a s1;
    '(b, s3, st2) ← pCat f s2 st1;
    Some (cat a' b, s3, st2).
Proof. reflexivity. Qed.

Lemma pCat_caret (f : nat) (s : list ascii) (st : pst) :
  pCat (S (S f)) ("^"%char :: "("%char :: s) st
  = '(b, s3, st2) ← pCat (S f) ("("%char :: s) st; Some (cat Bol b, s3, st2).
Proof. reflexivity. Qed.

Lemma pCat_dollar (f : nat) (st : pst) :
  pCat (S (S f)) ["$"%char] st = Some (Eol, [], st).
Proof. reflexivity. Qed.

Lemma pAtom_bare_group (f : nat) (s : list ascii) (st : pst) :
  pAtom (S f) ("("%char :: "?"%char :: ":"%char :: s) st
  = '(a, s2, st1) ← pAlt f s st;
    match s2 with ")"%char :: s3 => Some (a, s3, st1) | _ => None end.
Proof. reflexivity. Qed.

Lemma quantifier_text (w rest : list ascii) :
  forallb path_char w = true → quantifier rest = None →
  quantifier (w ++ rest) = None.
Proof.
  intros Hw Hrest. destruct w as [|d w]; [exact Hrest |].
  cbn [forallb] in Hw. apply andb_true_iff in Hw as [Hd _].
  apply (quantifier_path_char d), Hd.
Qed.

Lemma bind_ret {A B : Type} (x : A) (k : A → option B) : Some x ≫= k = k x.
Proof. reflexivity. Qed.

Lemma repeat_plain (a : re) (s : list ascii) :
  quantifier s = None → repeat a s = Some (a, s).
Proof. unfold repeat. intros ->. reflexivity. Qed.

(** The alternative of one plain route. *)
Lemma pAlt_plain_alternative (f : nat) (n w rest : list ascii) (st : pst) :
  n ≠ [] → forallb name_char n = true → forallb path_char w = true →
  (length w ≤ f)%nat →
  pAlt (S (S (S (S (S (S f))))))
    ("("%char :: "?"%char :: "P"%char :: "<"%char
       :: n ++ ">"%char :: "/"%char :: ")"%char :: w ++ ")"%char :: rest) st
  = Some (cat (Cap (S (fst st)) (Lit "/")) (lits w), ")"%char :: rest,
          (S (fst st), str n :: snd st)).
Proof.
  intros Hne Hn Hw Hf.
  rewrite pAlt_S, pCat_open.
  rewrite (pAtom_sentinel f n (w ++ ")"%char :: rest) st Hne Hn).
  rewrite bind_ret. cbv beta iota.
  rewrite (repeat_plain _ _ (quantifier_text w (")"%char :: rest) Hw eq_refl)).
  rewrite bind_ret. cbv beta iota.
  rewrite (pCat_lits w rest Hw) by lia.
  rewrite !bind_ret. reflexivity.
Qed.

Lemma pAtom_plain_group (f : nat) (n w rest : list ascii) (st : pst) :
  n ≠ [] → forallb name_char n = true → forallb path_char w = true →
  (length w ≤ f)%nat →
  pAtom (S (S (S (S (S (S (S f)))))))
    ("("%char :: "?"%char :: ":"%char
       :: "("%char :: "?"%char :: "P"%char :: "<"%char
       :: n ++ ">"%char :: "/"%char :: ")"%char :: w ++ ")"%char :: rest) st
  = Some (cat (Cap (S (fst st)) (Lit "/")) (lits w), rest,
          (S (fst st), str n :: snd st)).
Proof.
  intros Hne Hn Hw Hf.
  rewrite pAtom_bare_group, (pAlt_plain_alternative f n w rest st Hne Hn Hw Hf).
  reflexivity.
Qed.

Lemma pCat_plain_group (f : nat) (n w : list ascii) (st : pst) :
  n ≠ [] → forallb name_char n = true → forallb path_char w = true →
  (length w ≤ f)%nat →
  pCat (S (S (S (S (S (S (S (S f))))))))
    ("("%char :: "?"%char :: ":"%char
       :: "("%char :: "?"%char :: "P"%char :: "<"%char
       :: n ++ ">"%char :: "/"%char :: ")"%char :: w ++ [")"%char; "$"%char]) st
  = Some (cat (cat (Cap (S (fst st)) (Lit "/")) (lits w)) Eol, [],
          (S (fst st), str n :: snd st)).
Proof.
  intros Hne Hn Hw Hf.
  rewrite pCat_open, (pAtom_plain_group f n w ["$"%char] st Hne Hn Hw Hf).
  rewrite bind_ret. cbv beta iota.
  rewrite (repeat_plain _ ["$"%char] eq_refl).
  rewrite bind_ret. cbv beta iota.
  rewrite pCat_dollar.
  reflexivity.
Qed.

(** The syntax tree of the chunk of one plain route. *)
Lemma pAlt_plain_chunk (f : nat) (n w : list ascii) :
  n ≠ [] → forallb name_char n = true → forallb path_char w = true →
  (length w ≤ f)%nat →
  pAlt (10 + f)
    ("^"%char :: "("%char :: "?"%char :: ":"%char
       :: "("%char :: "?"%char :: "P"%char :: "<"%char
       :: n ++ ">"%char :: "/"%char :: ")"%char :: w ++ [")"%char; "$"%char])
    (0%nat, [])
  = Some (plain_chunk_tree w, [], (1%nat, [str n])).
Proof.
  intros Hne Hn Hw Hf.
  change (10 + f)%nat with (S (S (S (S (S (S (S (S (S (S f)))))))))).
  rewrite pAlt_S, pCat_caret, (pCat_plain_group f n w _ Hne Hn Hw Hf).
  reflexivity.
Qed.

End PlainParse.

Section PlainMatch.

Import Regexp.

Lemma run_cat (a b : re) (pos : nat) (s : list ascii) (cs : caps) (k : kont) :
  run (cat a b) pos s cs k = run a pos s cs (λ p1 s1 c1, run b p1 s1 c1 k).
Proof. destruct a, b; reflexivity. Qed.

Lemma HasPrefix_split (w : list ascii) :
  ∀ s, Strings.HasPrefix s w = true → s = w ++ drop (length w) s.
Proof.
  induction w as [|c w IH]; intros s H; [reflexivity |].
  destruct s as [|d s]; [discriminate H |]. cbn [Strings.HasPrefix] in H.
  destruct (Ascii.eqb_spec c d) as [->|]; [| discriminate H].
  cbn [length drop app]. f_equal. apply IH, H.
Qed.

(** A text of literals matches itself at the head of the input. *)
Lemma run_lits (w : list ascii) :
  ∀ (pos : nat) (s : list ascii) (cs : caps) (k : kont),
    run (lits w) pos s cs k
    = if Strings.HasPrefix s w
      then k (pos + length w)%nat (drop (length w) s) cs else None.
Proof.
  induction w as [|c w IH]; intros pos s cs k.
  - cbn [lits run length drop]. rewrite Nat.add_0_r.
    destruct s; reflexivity.
  - cbn [lits]. rewrite run_cat. cbn [run]. unfold step1.
    destruct s as [|d s]; [reflexivity |]. cbn [Strings.HasPrefix].
    destruct (Ascii.eqb c d); [| reflexivity].
    rewrite IH. cbn [length drop].
    replace (S pos + length w)%nat with (pos + S (length w))%nat by lia.
    reflexivity.
Qed.

Lemma run_plain_chunk (w s : list ascii) (pos : nat) :
  run (plain_chunk_tree w) pos s [] (λ p _ c, Some ((0%nat, (pos, p)) :: c))
  = if (pos =? 0)%nat
    then match s with
         | c :: s1 =>
             if Ascii.eqb "/" c && Strings.HasPrefix s1 w
             then match drop (length w) s1 with
                  | [] => Some [(0%nat, (pos, 1 + length w)%nat);
                                (1%nat, (0, 1)%nat)]
                  | _ :: _ => None
                  end
             else None
         | [] => None
         end
    else None.
Proof.
  unfold plain_chunk_tree. rewrite run_cat. cbn [run].
  destruct (pos =? 0)%nat eqn:Hpos; [| reflexivity].
  apply Nat.eqb_eq in Hpos. subst pos.
  rewrite run_cat, run_cat. cbn [run]. unfold step1.
  destruct s as [|c s1]; [reflexivity |].
  destruct (Ascii.eqb "/" c); [| reflexivity]. cbn [andb].
  rewrite run_lits.
  destruct (Strings.HasPrefix s1 w); [| reflexivity].
  destruct (drop (length w) s1); reflexivity.
Qed.

Lemma search_plain_chunk_later (w s : list ascii) :
  ∀ pos, search (plain_chunk_tree w) (S pos) s = None.
Proof.
  induction s as [|c s IH]; intros pos; cbn [search];
    rewrite run_plain_chunk; cbn [Nat.eqb]; [reflexivity | apply IH].
Qed.

Lemma search_plain_chunk_hit (w : list ascii) :
  search (plain_chunk_tree w) 0 ("/"%char :: w)
  = Some [(0%nat, (0, 1 + length w)%nat); (1%nat, (0, 1)%nat)].
Proof.
  cbn [search]. rewrite run_plain_chunk. cbn [Nat.eqb].
  change (Ascii.eqb "/" "/") with true. cbn [andb].
  rewrite <- (app_nil_r w) at 1. rewrite HasPrefix_app.
  rewrite drop_all. reflexivity.
Qed.

Lemma search_plain_chunk_miss (w s : list ascii) :
  s ≠ "/"%char :: w → search (plain_chunk_tree w) 0 s = None.
Proof.
  intros Hs.
  assert (Hrun : run (plain_chunk_tree w) 0 s []
                   (λ p _ c, Some ((0%nat, (0%nat, p)) :: c)) = None).
  { rewrite run_plain_chunk. cbn [Nat.eqb].
    destruct s as [|c s1]; [reflexivity |].
    destruct (Ascii.eqb_spec "/" c) as [<-|]; [| reflexivity]. cbn [andb].
    destruct (Strings.HasPrefix s1 w) eqn:Hp; [| reflexivity].
    destruct (drop (length w) s1) eqn:Hd; [| reflexivity].
    exfalso. apply Hs. f_equal.
    rewrite (HasPrefix_split w s1 Hp), Hd, app_nil_r. reflexivity. }
  destruct s as [|c s1]; cbn [search]; rewrite Hrun;
    [reflexivity | apply search_plain_chunk_later].
Qed.

End PlainMatch.

Lemma New_has_no_group : no_group New.
Proof. split; vm_compute; reflexivity. Qed.

Lemma New_lists_are_empty (k : string) (rs : list Route) :
  routesByMethod New !! k = Some rs → rs = [].
Proof.
  unfold New. cbn [routesByMethod]. intros H.
  repeat (apply lookup_insert_Some in H as [[_ <-]|[_ H]]; [reflexivity |]).
  rewrite lookup_empty in H. discriminate H.
Qed.

Lemma chars_inj (a b : string) : chars a = chars b → a = b.
Proof.
  intros H. rewrite <- (string_of_list_ascii_of_string a),
              <- (string_of_list_ascii_of_string b), H. reflexivity.
Qed.

(** The group in front of the alternative of a route took the "/" at
    the head of the path: the route is looked up by its name, and the
    parameters hold the extension alone. *)
Lemma params_loop_sentinel (name m0 ext : string) (r : Router) :
  params_loop [""; name] 0 [m0; "/"] ext r ∅
  = (set_matched r (FindRoute r name), <["ext" := IString ext]> ∅).
Proof.
  cbn [params_loop Nat.eqb orb]. unfold params_t.
  rewrite map_size_empty. cbn [Nat.eqb].
  change (default "" ([m0; "/"] !! 1%nat)) with "/".
  change (String.eqb "/" "") with false. cbn [orb].
  reflexivity.
Qed.

Section OnePlainRoute.

Variables name w : string.
Variable hs : list Handler.
Hypothesis Hname : route_name_ok name = true.
Hypothesis Hw : path_text_ok w = true.

Lemma name_chars : chars name ≠ [] ∧ forallb name_char (chars name) = true.
Proof.
  unfold route_name_ok in Hname. apply andb_true_iff in Hname as [Hne Hn].
  split; [| exact Hn]. destruct name; [discriminate Hne | discriminate].
Qed.

Lemma text_chars :
  forallb path_char (chars w) = true
  ∧ Strings.trim_left ["/"%char] (chars w) = chars w.
Proof.
  unfold path_text_ok in Hw. apply andb_true_iff in Hw as [Hall Hhead].
  split; [exact Hall |].
  destruct (chars w) as [|c l]; [reflexivity |].
  cbn [Strings.trim_left Strings.in_cutset existsb].
  apply negb_true_iff in Hhead. rewrite Hhead. reflexivity.
Qed.

Lemma path_char_excludes (c0 : ascii) (l : list ascii) :
  path_char c0 = false → forallb path_char l = true →
  existsb (Ascii.eqb c0) l = false.
Proof.
  intros Hc0. induction l as [|d l IH]; [reflexivity |].
  cbn [forallb existsb]. intros H. apply andb_true_iff in H as [Hd Hl].
  rewrite (IH Hl), orb_false_r.
  destruct (Ascii.eqb_spec c0 d) as [->|]; [congruence | reflexivity].
Qed.

Lemma text_without (c0 : ascii) :
  path_char c0 = false → existsb (Ascii.eqb c0) (chars ("/" +:+ w)) = false.
Proof.
  intros Hc0. apply path_char_excludes; [exact Hc0 |].
  change (chars ("/" +:+ w)) with ("/"%char :: chars w).
  cbn [forallb]. rewrite (proj1 text_chars). reflexivity.
Qed.

Lemma newRoute_path_text :
  newRoute "GET" name ("/" +:+ w) hs = plain_route name w hs.
Proof.
  unfold newRoute, plain_route.
  assert (Halias : ∀ old new, old ≠ "" → Strings.HasPrefix (chars old) ["("%char] = true →
                              Strings.Replace ("/" +:+ w) old new (-1) = "/" +:+ w).
  { intros old new Hne Hp. apply Replace_absent; [exact Hne |].
    destruct (chars old) as [|c o]; [discriminate Hp |].
    cbn [Strings.HasPrefix] in Hp.
    destruct (Ascii.eqb_spec "(" c) as [<-|]; [| discriminate Hp].
    apply occurs_without_head, text_without. reflexivity. }
  rewrite (Halias "(int)") by (discriminate || reflexivity).
  rewrite (Halias "(alpha)") by (discriminate || reflexivity).
  rewrite (Halias "(alphanumeric)") by (discriminate || reflexivity).
  rewrite (Halias "(slug)") by (discriminate || reflexivity).
  rewrite (Halias "(mongo)") by (discriminate || reflexivity).
  rewrite (Halias "(md5)") by (discriminate || reflexivity).
  destruct named_starts_with_colon as [X1 E1].
  destruct namedRegex_starts_with_colon as [X2 E2].
  unfold Regexp.MatchString.
  rewrite !ReplaceAllString_no_match
    by (rewrite ?E1, ?E2; apply search_without_head, text_without; reflexivity).
  rewrite E2, search_without_head by (apply text_without; reflexivity).
  reflexivity.
Qed.

Lemma trim_left_stops (cut s : list ascii) :
  match s with [] => true | c :: _ => negb (Strings.in_cutset cut c) end = true →
  Strings.trim_left cut s = s.
Proof.
  destruct s as [|c s]; [reflexivity |]. intros H.
  apply negb_true_iff in H. cbn [Strings.trim_left]. rewrite H. reflexivity.
Qed.

Lemma entry_plain_route :
  chars (entry (plain_route name w hs))
  = "("%char :: "?"%char :: "P"%char :: "<"%char
      :: chars name ++ ">"%char :: "/"%char :: ")"%char :: chars w ++ ["|"%char].
Proof.
  unfold entry, plain_route. cbn [Name pattern].
  unfold Strings.TrimLeft.
  change (chars ("/" +:+ w)) with ("/"%char :: chars w).
  change (chars "/") with ["/"%char].
  cbn [Strings.trim_left Strings.in_cutset existsb Ascii.eqb Bool.eqb orb].
  rewrite (proj2 text_chars), string_of_list_ascii_of_string.
  rewrite !chars_app. reflexivity.
Qed.

Lemma wrap_entry_plain_route :
  chars (wrap (entry (plain_route name w hs)))
  = "^"%char :: "("%char :: "?"%char :: ":"%char
      :: "("%char :: "?"%char :: "P"%char :: "<"%char
      :: chars name ++ ">"%char :: "/"%char :: ")"%char
      :: chars w ++ [")"%char; "$"%char].
Proof.
  unfold wrap, Strings.TrimRight. rewrite !chars_app, entry_plain_route.
  rewrite list_ascii_of_string_of_list_ascii.
  change (chars "|") with ["|"%char].
  remember ("("%char :: "?"%char :: "P"%char :: "<"%char
              :: chars name ++ [">"%char; "/"%char]) as front eqn:Efront.
  replace ("("%char :: "?"%char :: "P"%char :: "<"%char
             :: chars name ++ ">"%char :: "/"%char :: ")"%char :: chars w ++ ["|"%char])
    with ((front ++ ")"%char :: chars w) ++ ["|"%char])
    by (rewrite Efront; cbn [app]; rewrite <- !app_assoc; reflexivity).
  rewrite (rev_app_distr _ ["|"%char]).
  change (rev ["|"%char]) with ["|"%char].
  cbn [app Strings.trim_left Strings.in_cutset existsb].
  change (Ascii.eqb "|" "|") with true. cbn [orb].
  rewrite trim_left_stops, rev_involutive.
  - rewrite Efront. cbn [chars app]. rewrite <- !app_assoc. reflexivity.
  - rewrite rev_app_distr. change (")"%char :: chars w) with ([")"%char] ++ chars w).
    rewrite rev_app_distr. change (rev [")"%char]) with [")"%char].
    destruct (rev (chars w)) as [|c l] eqn:E; [reflexivity |].
    cbn [app]. unfold Strings.in_cutset. cbn [existsb]. rewrite orb_false_r.
    assert (Hc : path_char c = true).
    { assert (Hin : In c (chars w)).
      { apply in_rev. rewrite E. left. reflexivity. }
      exact (proj1 (forallb_forall _ _) (proj1 text_chars) c Hin). }
    destruct (Ascii.eqb_spec c "|") as [->|]; [discriminate Hc | reflexivity].
Qed.

(** The chunk of the route compiles, to the tree of its text. *)
Lemma MustCompile_plain_chunk :
  Regexp.MustCompile (wrap (entry (plain_route name w hs)))
  = Some (plain_chunk name w hs).
Proof.
  unfold Regexp.MustCompile, Regexp.Compile. cbv zeta.
  rewrite wrap_entry_plain_route.
  destruct name_chars as [Hne Hn].
  assert (Hfuel : ∀ F l, (10 + length (chars w) ≤ F)%nat →
            Regexp.pAlt F l (0%nat, [])
            = Regexp.pAlt (10 + (F - 10)) l (0%nat, [])).
  { intros F l HF. replace (10 + (F - 10))%nat with F by lia. reflexivity. }
  rewrite Hfuel.
  - rewrite (pAlt_plain_chunk _ (chars name) (chars w) Hne Hn (proj1 text_chars));
      [| repeat first [rewrite length_app | progress cbn [length]]; lia].
    rewrite bind_ret. cbv beta iota. cbn [snd rev app].
    rewrite string_of_list_ascii_of_string. reflexivity.
  - repeat first [rewrite length_app | progress cbn [length]]. lia.
Qed.

Lemma compile_method_plain_route :
  compile_method [plain_route name w hs] [] = Some [plain_chunk name w hs].
Proof.
  unfold compile_method. cbn [compile_loop Nat.ltb Nat.leb andb].
  rewrite bind_ret. cbv beta iota.
  change ("" +:+ entry (plain_route name w hs)) with (entry (plain_route name w hs)).
  rewrite MustCompile_plain_chunk. reflexivity.
Qed.

Lemma one_route_compiles :
  ∃ r, one_route_router name w hs = Some r
       ∧ validExtensions r = [""]
       ∧ FindRoute r name = Some (plain_route name w hs)
       ∧ at_key [] (regexesByMethod r) "GET" = [plain_chunk name w hs].
Proof.
  unfold one_route_router.
  assert (Hroute : snd (Get New name ("/" +:+ w) hs) = plain_route name w hs).
  { unfold Get. rewrite addRoute_route.
    rewrite (no_group_full_name _ _ New_has_no_group),
      (no_group_full_pattern _ _ New_has_no_group).
    apply newRoute_path_text. }
  assert (Hlists : routesByMethod (fst (Get New name ("/" +:+ w) hs))
                   = <["GET" := [plain_route name w hs]]> (routesByMethod New)).
  { rewrite <- Hroute. unfold Get. rewrite addRoute_routesByMethod.
    unfold New at 1. cbn [routesByMethod]. rewrite at_key_insert_eq. reflexivity. }
  destruct (Compile_succeeds (fst (Get New name ("/" +:+ w) hs))) as [r Hr].
  { intros k rs Hk. rewrite Hlists in Hk.
    apply lookup_insert_Some in Hk as [[_ <-]|[_ Hk]].
    - rewrite compile_method_plain_route. eexists. reflexivity.
    - apply New_lists_are_empty in Hk as ->. rewrite compile_no_routes.
      eexists. reflexivity. }
  exists r. split; [exact Hr |].
  destruct (Compile_Some _ r Hr) as (_ & _ & Hregs).
  destruct (Compile_fields _ r Hr) as (Hv & Hroutes & _).
  conjuncts.
  - rewrite Hv. reflexivity.
  - unfold FindRoute. rewrite Hroutes, <- Hroute. unfold Get.
    rewrite addRoute_routes, (no_group_full_name _ _ New_has_no_group).
    apply lookup_insert_eq.
  - unfold at_key at 1. rewrite Hregs, Hlists, lookup_insert_eq.
    rewrite compile_method_plain_route. reflexivity.
Qed.

Lemma FindStringSubmatch_hit :
  ∃ m0, Regexp.FindStringSubmatch (plain_chunk name w hs) ("/" +:+ w)
        = Some [m0; "/"].
Proof.
  unfold Regexp.FindStringSubmatch, plain_chunk. cbn [Regexp.prog Regexp.subexpNames].
  change (chars ("/" +:+ w)) with ("/"%char :: chars w).
  rewrite search_plain_chunk_hit. eexists. reflexivity.
Qed.

Lemma FindStringSubmatch_miss (path : string) :
  path ≠ "/" +:+ w →
  Regexp.FindStringSubmatch (plain_chunk name w hs) path = None.
Proof.
  intros Hne. unfold Regexp.FindStringSubmatch, plain_chunk. cbn [Regexp.prog].
  rewrite search_plain_chunk_miss; [reflexivity |].
  intros E. apply Hne, chars_inj. exact E.
Qed.

Lemma other_extension (path : string) :
  split_ext path = ("", path)
  ∨ (fst (split_ext path) ≠ "" ∧ path ≠ "/" +:+ w).
Proof.
  rewrite split_ext_last_dot. unfold last_dot_split.
  destruct (cut_last "." (chars path)) as [[b [|c a]]|] eqn:Hcut;
    [left; reflexivity | | left; reflexivity].
  right. split; [discriminate |].
  intros ->. apply cut_last_Some in Hcut as [E _].
  pose proof (text_without "." eq_refl) as Hdot.
  rewrite E, existsb_app in Hdot. cbn [existsb] in Hdot.
  change (Ascii.eqb "." ".") with true in Hdot.
  rewrite orb_true_r in Hdot. discriminate Hdot.
Qed.

End OnePlainRoute.

(** X22: a router with one route, registered by Get outside a group
    under a name of letters, digits and "_" at a pattern "/" and [w],
    where [w] is a text of letters, digits, "_", "-" and "/" that does
    not start with "/", compiles, and on the compiled router Dispatch
    with method GET finds the route for the path equal to the pattern
    and for no other path: for that path it stores the route in the
    router, and returns it with the parameters holding the empty
    extension alone; for every other path it leaves the router as it
    is and returns no route and no parameters. *)
Theorem one_plain_route_dispatch (name w : string) (hs : list Handler) :
  route_name_ok name = true → path_text_ok w = true →
  ∃ r, one_route_router name w hs = Some r
       ∧ ∀ path,
           Dispatch r "GET" path
           = if String.eqb path ("/" +:+ w)
             then (set_matched r (Some (plain_route name w hs)),
                   (Some (plain_route name w hs),
                    Some (<["ext" := IString ""]> ∅)))
             else (r, (None, None)).
Proof.
  intros Hname Hw.
  destruct (one_route_compiles name w hs Hname Hw) as (r & Hr & Hv & Hfind & Hregs).
  exists r. split; [exact Hr |]. intros path.
  unfold Dispatch.
  destruct (other_extension w Hw path) as [E|[Hext Hne]].
  - rewrite E. unfold extensionIsValid. rewrite Hv. cbn [existsb String.eqb orb negb].
    rewrite Hregs. cbn [chunks_loop].
    destruct (String.eqb_spec path ("/" +:+ w)) as [->|Hne].
    + destruct (FindStringSubmatch_hit name w hs) as [m0 Hm]. rewrite Hm.
      unfold Regexp.SubexpNames, plain_chunk. cbn [Regexp.subexpNames].
      rewrite params_loop_sentinel, Hfind. reflexivity.
    + rewrite (FindStringSubmatch_miss name w hs path Hne). reflexivity.
  - destruct (split_ext path) as [ext stripped]. cbn [fst] in Hext.
    unfold extensionIsValid. rewrite Hv. cbn [existsb]. rewrite orb_false_r.
    destruct (String.eqb_spec ext "") as [->|_]; [contradiction |]. cbn [negb].
    destruct (String.eqb_spec path ("/" +:+ w)) as [->|_];
      [contradiction | reflexivity].
Qed.

Lemma one_plain_route_dispatch_witness :
  route_name_ok "articles" = true
  ∧ path_text_ok "articles/latest" = true
  ∧ ∃ r, one_route_router "articles" "articles/latest" [IFunc 1] = Some r
         ∧ ∀ path,
             Dispatch r "GET" path
             = if String.eqb path "/articles/latest"
               then (set_matched r
                       (Some (plain_route "articles" "articles/latest" [IFunc 1])),
                     (Some (plain_route "articles" "articles/latest" [IFunc 1]),
                      Some (<["ext" := IString ""]> ∅)))
               else (r, (None, None)).
Proof.
  conjuncts; [reflexivity | reflexivity |].
  apply one_plain_route_dispatch; reflexivity.
Defined.
